(** * GST_Easy_Login: account store and login orchestrator

    A shallow embedding of [GST_Easy_Login.py].

    Python [str] values are lists of characters ([list ascii]); the model is
    restricted to ASCII text, so [str.upper], [str.lower], [str.strip] and the
    regular-expression class [\d] act on the ASCII letters, the ASCII white
    space and the ASCII digits.  Python integers are unbounded; the account
    indices are never negative and are modelled by [nat], with [int] total on
    digit strings.  The credential file is its text; the module creates it
    when it is absent (lines 44-47 of the script), so every function below
    runs with the file present.  Asynchronous interrupts ([KeyboardInterrupt])
    are not modelled: every exception of the model is an [Exception]. *)

From Stdlib Require Import Ascii String.
From Stdlib Require Import List Arith Bool Lia PeanoNat.
From Stdlib Require Import Sorting.Permutation Sorting.Sorted.
Import ListNotations.

Set Implicit Arguments.

(** ** Strings *)

Module Str.

Definition str := list ascii.

Definition lit (s : string) : str := list_ascii_of_string s.

Definition code (c : ascii) : nat := nat_of_ascii c.

Definition nl : ascii := ascii_of_nat 10.
Definition dq : ascii := ascii_of_nat 34.
Definition sp : ascii := ascii_of_nat 32.
Definition eq_sign : ascii := ascii_of_nat 61.

Definition is_nl (c : ascii) : bool := code c =? 10.
Definition is_dq (c : ascii) : bool := code c =? 34.
Definition is_sp (c : ascii) : bool := code c =? 32.

(** [str.isspace] on ASCII: TAB, LF, VT, FF, CR, FS, GS, RS, US and SPACE. *)
Definition is_space (c : ascii) : bool :=
  let n := code c in
  ((9 <=? n) && (n <=? 13)) || ((28 <=? n) && (n <=? 32)).

(** The class [\d] on ASCII. *)
Definition is_digit (c : ascii) : bool :=
  let n := code c in (48 <=? n) && (n <=? 57).

Definition is_lower (c : ascii) : bool :=
  let n := code c in (97 <=? n) && (n <=? 122).

Definition is_upper (c : ascii) : bool :=
  let n := code c in (65 <=? n) && (n <=? 90).

Definition upper_char (c : ascii) : ascii :=
  if is_lower c then ascii_of_nat (code c - 32) else c.

Definition lower_char (c : ascii) : ascii :=
  if is_upper c then ascii_of_nat (code c + 32) else c.

(** [s.upper()] and [s.lower()] *)
Definition upper (s : str) : str := map upper_char s.
Definition lower (s : str) : str := map lower_char s.

Fixpoint dropwhile (p : ascii -> bool) (s : str) : str :=
  match s with
  | [] => []
  | c :: s' => if p c then dropwhile p s' else s
  end.

Fixpoint takewhile (p : ascii -> bool) (s : str) : str :=
  match s with
  | [] => []
  | c :: s' => if p c then c :: takewhile p s' else []
  end.

(** [s.strip(chars)], with the set of characters given as a predicate *)
Definition strip_with (p : ascii -> bool) (s : str) : str :=
  rev (dropwhile p (rev (dropwhile p s))).

(** [s.strip()] *)
Definition strip (s : str) : str := strip_with is_space s.

(** [s.strip] with the double-quote character as its argument *)
Definition strip_quotes (s : str) : str := strip_with is_dq s.

(** [s.replace(" ", "")] *)
Definition remove_spaces (s : str) : str := filter (fun c => negb (is_sp c)) s.

Definition eqb_char (a b : ascii) : bool := code a =? code b.

Fixpoint eqb (a b : str) : bool :=
  match a, b with
  | [], [] => true
  | x :: a', y :: b' => eqb_char x y && eqb a' b'
  | _, _ => false
  end.

(** [s.startswith(p)] *)
Fixpoint startswith (p s : str) : bool :=
  match p, s with
  | [], _ => true
  | x :: p', y :: s' => eqb_char x y && startswith p' s'
  | _ :: _, [] => false
  end.

(** [p in s] for strings: [p] occurs in [s] as a contiguous block. *)
Fixpoint contains (p s : str) : bool :=
  startswith p s ||
  match s with
  | [] => false
  | _ :: s' => contains p s'
  end.

(** What is left of [s] after the prefix [p], when [s] starts with it. *)
Fixpoint after_prefix (p s : str) : option str :=
  match p, s with
  | [], _ => Some s
  | x :: p', y :: s' => if eqb_char x y then after_prefix p' s' else None
  | _ :: _, [] => None
  end.

(** [int(s)] on a string of decimal digits *)
Definition digit_val (c : ascii) : nat := code c - 48.

Definition int (s : str) : nat :=
  fold_left (fun acc c => 10 * acc + digit_val c) s 0.

(** [str(n)] for a non-negative integer *)
Fixpoint digits (fuel n : nat) (acc : str) : str :=
  match fuel with
  | 0 => acc
  | S fuel' =>
      let acc' := ascii_of_nat (48 + n mod 10) :: acc in
      if n <? 10 then acc' else digits fuel' (n / 10) acc'
  end.

Definition of_nat (n : nat) : str := digits (S n) n [].

(** Lexicographic order on strings, as [sorted] uses it on [str] keys. *)
Fixpoint leb (a b : str) : bool :=
  match a, b with
  | [], _ => true
  | _ :: _, [] => false
  | x :: a', y :: b' =>
      if code x <? code y then true
      else if code y <? code x then false
      else leb a' b'
  end.

End Str.

Import Str.

(** ** The credential file as text *)

(** [f.readlines()]: the lines of the text, each with its terminator; the
    last line has none when the text does not end with a newline. *)
Fixpoint readlines (content : str) : list str :=
  match content with
  | [] => []
  | c :: rest =>
      if is_nl c then [c] :: readlines rest
      else match readlines rest with
           | [] => [[c]]
           | l :: ls => (c :: l) :: ls
           end
  end.

(** [f.writelines(lines)] on a file opened with ['w']. *)
Definition writelines (lines : list str) : str := concat lines.

Definition TRADE_NAME_PREFIX : str := lit "Trade_Name_".
Definition USER_ID_PREFIX : str := lit "GST_UserID_".
Definition PASSWORD_PREFIX : str := lit "GST_PSSWD_".

(** The line [KEY="VALUE"\n] that [update_env_variable] writes. *)
Definition env_entry (key value : str) : str :=
  key ++ eq_sign :: dq :: value ++ [dq; nl].

(** The rewriting loop of [update_env_variable] (lines 68-74): the new lines
    and the flag [updated]. *)
Fixpoint rewrite_lines (key new_value : str) (lines : list str)
  : list str * bool :=
  match lines with
  | [] => ([], false)
  | line :: rest =>
      let (rest', updated) := rewrite_lines key new_value rest in
      if startswith (key ++ [eq_sign]) (strip line)
      then (env_entry key new_value :: rest', true)
      else (line :: rest', updated)
  end.

(** The file part of [update_env_variable] (lines 62-80). *)
Definition update_env_file (key new_value content : str) : str :=
  let lines := readlines content in
  let (new_lines, updated) := rewrite_lines key new_value lines in
  let new_lines :=
    if negb updated then new_lines ++ [env_entry key new_value]
    else new_lines in
  writelines new_lines.

(** ** The account mapping *)

(** A Python [dict] with [str] keys and values, in insertion order. *)
Definition dict := list (str * str).

Fixpoint dict_get (k : str) (d : dict) : option str :=
  match d with
  | [] => None
  | (k', v) :: d' => if Str.eqb k k' then Some v else dict_get k d'
  end.

(** [d[k] = v]: an existing key keeps its place, a new key goes last. *)
Fixpoint dict_set (k v : str) (d : dict) : dict :=
  match d with
  | [] => [(k, v)]
  | (k', v') :: d' =>
      if Str.eqb k k' then (k', v) :: d' else (k', v') :: dict_set k v d'
  end.

(** [k in d] *)
Definition dict_mem (k : str) (d : dict) : bool :=
  match dict_get k d with Some _ => true | None => false end.

(** [re.match] of a stripped line against the pattern of line 102: the
    prefix, a first group of one decimal digit or more, an equals sign, and a
    second group that runs to the end of the line and holds no newline.  The
    result is the two groups. *)
Definition match_trade_name (line : str) : option (str * str) :=
  match after_prefix TRADE_NAME_PREFIX line with
  | None => None
  | Some rest =>
      let ds := takewhile is_digit rest in
      match ds, dropwhile is_digit rest with
      | _ :: _, c :: value =>
          if eqb_char c eq_sign && forallb (fun x => negb (is_nl x)) value
          then Some (ds, value) else None
      | _, _ => None
      end
  end.

(** The key under which a stored value is looked up (line 106). *)
Definition stored_key (value : str) : str :=
  upper (remove_spaces (strip_quotes (strip value))).

(** One turn of the loop of [get_account_mapping] (lines 100-109) on the state
    [(trade_name_to_index, highest_index)]. *)
Definition scan_line (st : dict * nat) (line : str) : dict * nat :=
  let (trade_name_to_index, highest_index) := st in
  let line := strip line in
  match match_trade_name line with
  | Some (g1, g2) =>
      let index := int g1 in
      let trade_name := stored_key g2 in
      (dict_set trade_name (of_nat index) trade_name_to_index,
       if highest_index <? index then index else highest_index)
  | None => st
  end.

Definition scan_lines (lines : list str) : dict * nat :=
  fold_left scan_line lines ([], 0).

(** [get_account_mapping] (lines 87-110) on the text of the file. *)
Definition account_mapping_of_lines (lines : list str) : dict * nat :=
  let (trade_name_to_index, highest_index) := scan_lines lines in
  (trade_name_to_index, highest_index + 1).

Definition get_account_mapping (content : str) : dict * nat :=
  account_mapping_of_lines (readlines content).

(** [nextIndex] of the store. *)
Definition next_index (content : str) : nat := snd (get_account_mapping content).

(** The normalisation of an entered trade name (lines 125, 179 and 308),
    applied to the stripped input. *)
Definition normalize (name : str) : str := upper (remove_spaces name).

(** [resolve]: the index of the account an operator's input names (lines 293
    and 308-314). *)
Definition resolve (mapping : dict) (input : str) : option str :=
  dict_get (normalize (strip input)) mapping.

(** [sorted(items, key=lambda item: int(item[1]))]: a stable sort. *)
Fixpoint insert_by_index (x : str * str) (l : list (str * str))
  : list (str * str) :=
  match l with
  | [] => [x]
  | y :: l' =>
      if int (snd x) <=? int (snd y) then x :: l
      else y :: insert_by_index x l'
  end.

Definition sorted_by_index (items : list (str * str)) : list (str * str) :=
  fold_right insert_by_index [] items.

(** [sorted(keys)] *)
Fixpoint insert_str (x : str) (l : list str) : list str :=
  match l with
  | [] => [x]
  | y :: l' => if Str.leb x y then x :: l else y :: insert_str x l'
  end.

Definition sorted_str (keys : list str) : list str :=
  fold_right insert_str [] keys.

(** ** The world of the program *)

(** Every exception of the model is an instance of [Exception], named by its
    class. *)
Inductive exn : Type :=
| Exception (cls : string).

Definition exn_text (e : exn) : str :=
  match e with Exception cls => lit cls end.

Definition EOFError : exn := Exception "EOFError".

(** The calls the script makes on the browser session. *)
Inductive driver_op : Type :=
| Chrome                                      (* webdriver.Chrome(service=service) *)
| Get (url : string)                          (* driver.get(url) *)
| WaitPresence (timeout : nat) (id : string)  (* WebDriverWait(..).until(presence_of_element_located) *)
| FindById (id : string)                      (* driver.find_element(By.ID, id) *)
| SendKeys (id : string) (text : str)         (* element.send_keys(text) *)
| WaitClickable (timeout : nat) (id : string) (* WebDriverWait(..).until(element_to_be_clickable) *)
| Click (id : string)                         (* element.click() *)
| CurrentUrl                                  (* driver.current_url *)
| FindByClass (cls : string)                  (* driver.find_element(By.CLASS_NAME, cls) *)
| Text (cls : string)                         (* element.text *)
| Quit.                                       (* driver.quit() *)

Inductive event : Type :=
| Print (template : string) (args : list str)
| Prompt (template : string) (args : list str)
| Sleep (seconds : nat)
| Call (op : driver_op).

(** The browser as the script sees it: which call raises, given all that has
    happened so far, the location the session shows after the submit, and the
    text of the error element of the page. *)
Record browser : Type := {
  fault : list event -> driver_op -> option exn;
  current_url : str;
  error_text : str
}.

Record world : Type := {
  env_file : str;                 (* the text of the credential file *)
  environ : dict;                 (* os.environ *)
  stdin : list str;               (* the lines the operator will type *)
  log : list event;               (* what has happened, latest first *)
  chromedriver_exists : bool;     (* os.path.exists(chromedriver_path) *)
  session : browser
}.

Definition set_env_file (content : str) (w : world) : world :=
  {| env_file := content; environ := environ w; stdin := stdin w;
     log := log w; chromedriver_exists := chromedriver_exists w;
     session := session w |}.

Definition set_environ (e : dict) (w : world) : world :=
  {| env_file := env_file w; environ := e; stdin := stdin w;
     log := log w; chromedriver_exists := chromedriver_exists w;
     session := session w |}.

Definition set_stdin (i : list str) (w : world) : world :=
  {| env_file := env_file w; environ := environ w; stdin := i;
     log := log w; chromedriver_exists := chromedriver_exists w;
     session := session w |}.

Definition record (ev : event) (w : world) : world :=
  {| env_file := env_file w; environ := environ w; stdin := stdin w;
     log := ev :: log w; chromedriver_exists := chromedriver_exists w;
     session := session w |}.

(** ** A state and exception monad *)

Inductive result (A : Type) : Type :=
| Ok (a : A)
| Raise (e : exn)
| OutOfFuel.

Arguments Ok {A} a.
Arguments Raise {A} e.
Arguments OutOfFuel {A}.

Definition M (A : Type) : Type := world -> result A * world.

Definition ret {A} (a : A) : M A := fun w => (Ok a, w).

Definition bind {A B} (m : M A) (k : A -> M B) : M B :=
  fun w =>
    match m w with
    | (Ok a, w') => k a w'
    | (Raise e, w') => (Raise e, w')
    | (OutOfFuel, w') => (OutOfFuel, w')
    end.

Definition raise {A} (e : exn) : M A := fun w => (Raise e, w).

Definition out_of_fuel {A} : M A := fun w => (OutOfFuel, w).

Declare Scope io_scope.
Delimit Scope io_scope with io.

Notation "x <- m ;; k" := (bind m (fun x => k))
  (at level 100, m at next level, right associativity) : io_scope.
Notation "m ;; k" := (bind m (fun _ => k))
  (at level 100, right associativity) : io_scope.

Open Scope io_scope.

(** [try: body except Exception as e: handler e] *)
Definition try_except {A} (body : M A) (handler : exn -> M A) : M A :=
  fun w =>
    match body w with
    | (Raise e, w') => handler e w'
    | r => r
    end.

(** [try: body finally: fin]: [fin] runs on every way out of [body]; an
    exception of [fin] replaces the outcome of [body]. *)
Definition try_finally {A} (body : M A) (fin : M unit) : M A :=
  fun w =>
    match body w with
    | (OutOfFuel, w') => (OutOfFuel, w')
    | (r, w') =>
        match fin w' with
        | (Ok _, w'') => (r, w'')
        | (Raise e, w'') => (Raise e, w'')
        | (OutOfFuel, w'') => (OutOfFuel, w'')
        end
    end.

Definition get_world : M world := fun w => (Ok w, w).

(** [print(f"...")]: the template and the values put into it. *)
Definition print (template : string) (args : list str) : M unit :=
  fun w => (Ok tt, record (Print template args) w).

Fixpoint print_each (template : string) (items : list str) : M unit :=
  match items with
  | [] => ret tt
  | x :: rest => print template [x] ;; print_each template rest
  end.

(** [input(f"...")]: the next line of the operator, [EOFError] when there is
    none. *)
Definition input (template : string) (args : list str) : M str :=
  fun w =>
    let w' := record (Prompt template args) w in
    match stdin w with
    | [] => (Raise EOFError, w')
    | line :: rest => (Ok line, set_stdin rest w')
    end.

(** [time.sleep(seconds)] *)
Definition sleep (seconds : nat) : M unit :=
  fun w => (Ok tt, record (Sleep seconds) w).

(** A call on the browser session: it is made, and the browser decides from
    what happened before whether it raises. *)
Definition call (op : driver_op) : M unit :=
  fun w =>
    let w' := record (Call op) w in
    match fault (session w) (log w) op with
    | Some e => (Raise e, w')
    | None => (Ok tt, w')
    end.

(** [os.getenv(key)] and [os.getenv(key, default)] *)
Definition getenv (key : str) : M (option str) :=
  fun w => (Ok (dict_get key (environ w)), w).

Definition getenv_or (key default : str) : M str :=
  fun w =>
    (Ok (match dict_get key (environ w) with Some v => v | None => default end),
     w).

(** A loop [while True] whose every turn reads a line of the operator first
    needs no more turns than there are lines, plus the one that finds none. *)
Definition with_fuel {A} (loop : nat -> M A) : M A :=
  fun w => loop (S (length (stdin w))) w.

Definition is_empty_list {A} (l : list A) : bool :=
  match l with [] => true | _ :: _ => false end.

Definition is_empty (s : str) : bool :=
  match s with [] => true | _ :: _ => false end.

(** The truth value [if v:] gives to an optional string. *)
Definition truthy (v : option str) : bool :=
  match v with Some (_ :: _) => true | _ => false end.

(** ** The program *)

Definition url : string := "https://services.gst.gov.in/services/login".
Definition dotenv_path : str := lit ".env".
Definition chromedriver_path : str := lit "chromedriver-win64/chromedriver.exe".

Inductive loop_ctl : Type := Continue | Break.

Section Program.

(** [load_dotenv] of the package [python-dotenv]: from the text of the file,
    the flag [override] and the environment, the new environment. *)
Variable load_dotenv : str -> bool -> dict -> dict.

Definition reload_dotenv (override : bool) : M unit :=
  fun w => (Ok tt, set_environ (load_dotenv (env_file w) override (environ w)) w).

(** [update_env_variable] (lines 54-84) *)
Definition update_env_variable (key new_value : str) : M unit :=
  fun w =>
    let w1 := set_env_file (update_env_file key new_value (env_file w)) w in
    let w2 := record (Print "Successfully updated/added '{}' in '{}'"
                            [key; dotenv_path]) w1 in
    (Ok tt, set_environ (dict_set key new_value (environ w2)) w2).

Definition read_account_mapping : M (dict * nat) :=
  fun w => (Ok (get_account_mapping (env_file w)), w).

(** [add_new_account] (lines 115-155) *)
Definition add_new_account : M unit :=
  print "--- Add New Account ---" [] ;;
  scan <- read_account_mapping ;;
  let (trade_name_mapping, next_available_index) := scan : dict * nat in
  line <- input "Enter a NEW unique Trade Name for the account: " [] ;;
  let new_trade_name := strip line in
  if is_empty new_trade_name then
    print "Trade Name cannot be empty. Aborting." []
  else
    let normalized_trade_name := normalize new_trade_name in
    chosen <-
      match dict_get normalized_trade_name trade_name_mapping with
      | Some existing =>
          print "Warning: Trade Name '{}' (normalized to '{}') already exists with index {}."
                [new_trade_name; normalized_trade_name; existing] ;;
          answer <- input "Do you want to OVERWRITE its existing credentials? (yes/no): " [] ;;
          let overwrite := lower (strip answer) in
          if negb (Str.eqb overwrite (lit "yes")) then
            print "Aborting add operation." [] ;; ret None
          else ret (Some existing)
      | None => ret (Some (of_nat next_available_index))
      end ;;
    match chosen with
    | None => ret tt
    | Some index_to_use =>
        let username_key := USER_ID_PREFIX ++ index_to_use in
        let password_key := PASSWORD_PREFIX ++ index_to_use in
        let trade_name_key := TRADE_NAME_PREFIX ++ index_to_use in
        line_u <- input "Enter the username for '{}': " [new_trade_name] ;;
        let new_username := strip line_u in
        line_p <- input "Enter the password for '{}': " [new_trade_name] ;;
        let new_password := strip line_p in
        if is_empty new_username || is_empty new_password then
          print "Username and password cannot be empty. Aborting." []
        else
          update_env_variable trade_name_key new_trade_name ;;
          update_env_variable username_key new_username ;;
          update_env_variable password_key new_password ;;
          print "Account '{}' added/updated successfully with index {}."
                [new_trade_name; index_to_use] ;;
          reload_dotenv true
    end.

(** The display loop of lines 169-174. *)
Fixpoint print_original_names (mapping : dict) (keys : list str) : M unit :=
  match keys with
  | [] => ret tt
  | name_upper_key :: rest =>
      match dict_get name_upper_key mapping with
      | None => raise (Exception "KeyError")
      | Some index =>
          original <- getenv_or (TRADE_NAME_PREFIX ++ index) name_upper_key ;;
          print "- {}" [original] ;;
          print_original_names mapping rest
      end
  end.

Definition shown (v : option str) (not_set : str) : str :=
  match v with Some x => x | None => not_set end.

Definition masked (v : option str) : str :=
  if truthy v then lit "***" else lit "Not set".

(** [update_existing_account] (lines 158-211) *)
Definition update_existing_account : M unit :=
  print "--- Update Existing Account ---" [] ;;
  scan <- read_account_mapping ;;
  let trade_name_mapping := fst (scan : dict * nat) in
  let available_trade_names := sorted_str (map fst trade_name_mapping) in
  if is_empty_list available_trade_names then
    print "No accounts found in .env file to update. Please add a new account first." []
  else
    print "Existing accounts (Trade Names):" [] ;;
    print_original_names trade_name_mapping available_trade_names ;;
    line <- input "Enter the Trade Name of the account to update: " [] ;;
    let account_to_update_name_input := strip line in
    let normalized_account_name := normalize account_to_update_name_input in
    match dict_get normalized_account_name trade_name_mapping with
    | None =>
        print "Trade Name '{}' not found. Please choose from the existing accounts."
              [account_to_update_name_input]
    | Some index_to_update =>
        let username_key := USER_ID_PREFIX ++ index_to_update in
        let password_key := PASSWORD_PREFIX ++ index_to_update in
        original_trade_name_found <-
          getenv_or (TRADE_NAME_PREFIX ++ index_to_update)
                    account_to_update_name_input ;;
        print "Updating credentials for '{}' (index: {})"
              [original_trade_name_found; index_to_update] ;;
        current_username <- getenv username_key ;;
        print "(Current username: {})" [shown current_username (lit "Not set")] ;;
        current_password <- getenv password_key ;;
        print "(Current password: {})" [masked current_password] ;;
        line_u <- input "Enter NEW username (leave blank to keep current): " [] ;;
        let new_username := strip line_u in
        line_p <- input "Enter NEW password (leave blank to keep current): " [] ;;
        let new_password := strip line_p in
        (if negb (is_empty new_username)
         then update_env_variable username_key new_username else ret tt) ;;
        (if negb (is_empty new_password)
         then update_env_variable password_key new_password else ret tt) ;;
        let updated := negb (is_empty new_username) || negb (is_empty new_password) in
        if updated then
          print "Credentials for '{}' updated successfully." [original_trade_name_found] ;;
          reload_dotenv true
        else print "No changes made." []
    end.

(** The display loop of [list_all_accounts] (lines 225-234). *)
Fixpoint print_accounts (items : list (str * str)) : M unit :=
  match items with
  | [] => ret tt
  | (name_upper, index) :: rest =>
      original_trade_name <- getenv_or (TRADE_NAME_PREFIX ++ index) name_upper ;;
      username_val <- getenv_or (USER_ID_PREFIX ++ index) (lit "N/A") ;;
      password_val <- getenv_or (PASSWORD_PREFIX ++ index) (lit "N/A") ;;
      print "Trade Name: {} (Index: {})" [original_trade_name; index] ;;
      print "  Username: {}" [username_val] ;;
      print "  Password: {}"
            [if is_empty password_val then lit "Not Set" else lit "***"] ;;
      print "--------------------" [] ;;
      print_accounts rest
  end.

(** [list_all_accounts] (lines 214-235) *)
Definition list_all_accounts : M unit :=
  print "--- List All Accounts ---" [] ;;
  scan <- read_account_mapping ;;
  let trade_name_mapping := fst (scan : dict * nat) in
  let available_trade_names_sorted_by_index := sorted_by_index trade_name_mapping in
  (if is_empty_list available_trade_names_sorted_by_index then
     print "No accounts found following the defined naming convention (Trade_Name_X, GST_UserID_X, GST_PSSWD_X)." []
   else print_accounts available_trade_names_sorted_by_index) ;;
  reload_dotenv true.

(** [manage_credentials_menu] (lines 238-257) *)
Fixpoint manage_credentials_loop (fuel : nat) : M unit :=
  match fuel with
  | 0 => out_of_fuel
  | S fuel' =>
      print "--- Credential Management Menu ---" [] ;;
      print "1. Add a NEW account" [] ;;
      print "2. Update an EXISTING account" [] ;;
      print "3. List all accounts" [] ;;
      print "4. Go back to Main Menu" [] ;;
      line <- input "Enter your choice (1-4): " [] ;;
      let choice := strip line in
      if Str.eqb choice (lit "1") then
        add_new_account ;; manage_credentials_loop fuel'
      else if Str.eqb choice (lit "2") then
        update_existing_account ;; manage_credentials_loop fuel'
      else if Str.eqb choice (lit "3") then
        list_all_accounts ;; manage_credentials_loop fuel'
      else if Str.eqb choice (lit "4") then ret tt
      else
        print "Invalid choice. Please enter a number between 1 and 4." [] ;;
        manage_credentials_loop fuel'
  end.

Definition manage_credentials_menu : M unit :=
  with_fuel manage_credentials_loop.

(** The three tests of line 354, each reading [driver.current_url]. *)
Definition url_has (marker : string) : M bool :=
  call CurrentUrl ;;
  w <- get_world ;;
  ret (contains (lit marker) (current_url (session w))).

Definition logged_in : M bool :=
  a <- url_has "dashboard" ;;
  if a then ret true else
  b <- url_has "home" ;;
  if b then ret true else
  url_has "loggedin".

(** The inner [try] of lines 360-364, with its bare [except]. *)
Definition report_page_error : M unit :=
  try_except
    (call (FindByClass "error-message-class") ;;
     call (Text "error-message-class") ;;
     w <- get_world ;;
     print "Error message: {}" [error_text (session w)])
    (fun _ => ret tt).

(** Lines 354-365: what the script makes of the page after the submit. *)
Definition evaluate (original_trade_name_found : str) : M loop_ctl :=
  ok <- logged_in ;;
  if ok then
    print "Successfully logged in with account: {}" [original_trade_name_found] ;;
    _ <- input "Press Enter to keep the browser open (or close it manually)..." [] ;;
    ret Break
  else
    print "Login failed for account: {}." [original_trade_name_found] ;;
    report_page_error ;;
    print "Please check the credentials, CAPTCHA, or the GST portal's status and try again." [] ;;
    ret Continue.

(** Lines 329-352: the form is filled, the operator solves the CAPTCHA, the
    form is submitted and the script waits five seconds. *)
Definition fill_and_submit (username password original_trade_name_found : str)
  : M unit :=
  call (WaitPresence 10 "username") ;;
  call (SendKeys "username" username) ;;
  call (FindById "user_pass") ;;
  call (SendKeys "user_pass" password) ;;
  call (WaitPresence 20 "captcha") ;;
  line <- input "Enter CAPTCHA from browser for '{}': " [original_trade_name_found] ;;
  let captcha_solution := strip line in
  call (SendKeys "captcha" captcha_solution) ;;
  call (WaitClickable 10 "login_button_id") ;;
  call (Click "login_button_id") ;;
  sleep 5.

(** The clause [finally] of lines 370-373 on the variable [driver]. *)
Definition close_session (driver : option unit) : M unit :=
  match driver with
  | Some _ => call Quit
  | None => ret tt
  end.

(** The statement [try] of lines 328-373, with its clauses [except] and
    [finally]. *)
Definition guarded_login (username password original_trade_name_found : str)
    (driver : option unit) : M loop_ctl :=
  try_finally
    (try_except
       (fill_and_submit username password original_trade_name_found ;;
        evaluate original_trade_name_found)
       (fun e =>
          print "An error occurred during login for account {}: {}"
                [original_trade_name_found; exn_text e] ;;
          ret Continue))
    (close_session driver).

(** One login attempt, lines 323-373: the value says whether the loop of
    [perform_gst_login] goes on ([Continue]) or is left ([Break]). *)
Definition login_attempt (username password original_trade_name_found : str)
  : M loop_ctl :=
  print "Attempting to log in with account: {}" [original_trade_name_found] ;;
  call Chrome ;;
  let driver := Some tt in
  call (Get url) ;;
  guarded_login username password original_trade_name_found driver.

(** The loop of [perform_gst_login] (lines 292-378). *)
Fixpoint login_loop (fuel : nat) (trade_name_mapping : dict)
    (available_trade_names_for_display : list str) : M unit :=
  match fuel with
  | 0 => out_of_fuel
  | S fuel' =>
      let again := login_loop fuel' trade_name_mapping
                              available_trade_names_for_display in
      line <- input "Enter the Trade Name of the account to log in with, or type 'list' to see options, or 'back' to return to main menu: " [] ;;
      let account_name_input := strip line in
      if Str.eqb (lower account_name_input) (lit "back") then
        print "Returning to main menu." []
      else if Str.eqb (lower account_name_input) (lit "list") then
        print "Available accounts (Trade Names):" [] ;;
        (if is_empty_list available_trade_names_for_display
         then print "No accounts found." [] else ret tt) ;;
        print_each "- {}" available_trade_names_for_display ;;
        again
      else
        let normalized_account_name := normalize account_name_input in
        match dict_get normalized_account_name trade_name_mapping with
        | None =>
            print "Trade Name '{}' (normalized to '{}') not found. Please choose from the available accounts or ensure it's entered without internal spaces."
                  [account_name_input; normalized_account_name] ;;
            again
        | Some index =>
            username <- getenv (USER_ID_PREFIX ++ index) ;;
            password <- getenv (PASSWORD_PREFIX ++ index) ;;
            original_trade_name_found <-
              getenv_or (TRADE_NAME_PREFIX ++ index) account_name_input ;;
            if truthy username && truthy password then
              ctl <- login_attempt (shown username []) (shown password [])
                                   original_trade_name_found ;;
              match ctl with
              | Break => ret tt
              | Continue => again
              end
            else
              print "Credentials (username or password) for account '{}' (index {}) not found in .env file. Expected variables: {} and {}"
                    [original_trade_name_found; index;
                     USER_ID_PREFIX ++ index; PASSWORD_PREFIX ++ index] ;;
              print "Please ensure your .env file is correctly configured for this account, or add/update it via 'Manage Credentials'." [] ;;
              again
        end
  end.

(** The loop of lines 276-278. *)
Fixpoint names_for_display (items : list (str * str)) : M (list str) :=
  match items with
  | [] => ret []
  | (name_upper_key, index) :: rest =>
      original_name <- getenv_or (TRADE_NAME_PREFIX ++ index) name_upper_key ;;
      others <- names_for_display rest ;;
      ret (original_name :: others)
  end.

(** [perform_gst_login] (lines 261-378) *)
Definition perform_gst_login : M unit :=
  print "--- Perform GST Login Automation ---" [] ;;
  w <- get_world ;;
  if negb (chromedriver_exists w) then
    print "Error: Chromedriver not found at {}." [chromedriver_path] ;;
    print "Please ensure the 'chromedriver-win64' folder containing 'chromedriver.exe' is in the same directory as this script/executable." [] ;;
    _ <- input "Press Enter to return to main menu..." [] ;;
    ret tt
  else
    scan <- read_account_mapping ;;
    let trade_name_mapping := fst (scan : dict * nat) in
    available_trade_names_for_display <-
      names_for_display (sorted_by_index trade_name_mapping) ;;
    if is_empty_list available_trade_names_for_display then
      print "No accounts found in .env file. Please add an account using 'Manage Credentials' first." [] ;;
      _ <- input "Press Enter to return to main menu..." [] ;;
      ret tt
    else
      print "Available accounts (Trade Names):" [] ;;
      print_each "- {}" available_trade_names_for_display ;;
      with_fuel (fun fuel =>
        login_loop fuel trade_name_mapping available_trade_names_for_display).

(** The main menu (lines 381-400). *)
Fixpoint main_loop (fuel : nat) : M unit :=
  match fuel with
  | 0 => out_of_fuel
  | S fuel' =>
      print "Main Menu:" [] ;;
      print "1. Manage Credentials (Add/Update/List)" [] ;;
      print "2. Perform GST Login" [] ;;
      print "3. Exit" [] ;;
      line <- input "Enter your choice (1-3): " [] ;;
      let main_choice := strip line in
      if Str.eqb main_choice (lit "1") then
        manage_credentials_menu ;; main_loop fuel'
      else if Str.eqb main_choice (lit "2") then
        perform_gst_login ;; main_loop fuel'
      else if Str.eqb main_choice (lit "3") then
        print "Exiting GST Automation Tool. Goodbye!" []
      else
        print "Invalid choice. Please enter a number between 1 and 3." [] ;;
        main_loop fuel'
  end.

Definition main : M unit :=
  print "--- Welcome to GST Automation Tool ---" [] ;;
  with_fuel main_loop.

End Program.

(** ** Notions used to state the properties *)

(** A line is a well-formed trade-name line with index [i] and value [value]
    when, without the white space around it, it reads [Trade_Name_], then one
    decimal digit or more whose number is [i], then an equals sign, then
    [value], which holds no newline. *)
Definition well_formed_trade_line (line : str) (i : nat) (value : str) : Prop :=
  exists ds,
    strip line = TRADE_NAME_PREFIX ++ ds ++ eq_sign :: value /\
    ds <> [] /\
    Forall (fun c => is_digit c = true) ds /\
    Forall (fun c => c <> nl) value /\
    i = int ds.



Definition not_eq_sign (c : ascii) : bool := negb (eqb_char c eq_sign).

(** The key of a line [KEY=VALUE]: what stands before its first equals sign,
    the white space around the line apart. *)
Definition line_key (line : str) : option str :=
  match dropwhile not_eq_sign (strip line) with
  | [] => None
  | _ :: _ => Some (takewhile not_eq_sign (strip line))
  end.


(** What the operator types makes [add_new_account] reject the record: the
    trade name is blank, or, after the name (and after the answer [yes] to the
    question that an existing name raises), the username or the password is
    blank.  [mapping] is the account mapping of the store. *)
Inductive add_rejected (mapping : dict) : list str -> Prop :=
| rejected_blank_name name rest :
    strip name = [] ->
    add_rejected mapping (name :: rest)
| rejected_blank_new name username password rest :
    strip name <> [] ->
    dict_get (normalize (strip name)) mapping = None ->
    strip username = [] \/ strip password = [] ->
    add_rejected mapping (name :: username :: password :: rest)
| rejected_blank_existing name index answer username password rest :
    strip name <> [] ->
    dict_get (normalize (strip name)) mapping = Some index ->
    lower (strip answer) = lit "yes" ->
    strip username = [] \/ strip password = [] ->
    add_rejected mapping (name :: answer :: username :: password :: rest).

(** Two characters are the same letter when they are equal or are the small
    and the capital form of one ASCII letter. *)
Definition same_letter (c d : ascii) : Prop :=
  c = d \/
  (is_lower c = true /\ code c = code d + 32) \/
  (is_lower d = true /\ code d = code c + 32).

(** Two texts differ only in the case of their letters and in characters of
    the class [skip], which either may have anywhere where the other has
    none. *)
Inductive same_text (skip : ascii -> bool) : str -> str -> Prop :=
| same_nil : same_text skip [] []
| same_char c d a b :
    same_letter c d -> same_text skip a b -> same_text skip (c :: a) (d :: b)
| same_skip_left c a b :
    skip c = true -> same_text skip a b -> same_text skip (c :: a) b
| same_skip_right c a b :
    skip c = true -> same_text skip a b -> same_text skip a (c :: b).

(** Two names differ only in the case of their letters, in white space at
    their ends and in space characters anywhere. *)
Definition same_name (t input : str) : Prop :=
  exists l1 a r1 l2 b r2,
    t = l1 ++ a ++ r1 /\ input = l2 ++ b ++ r2 /\
    forallb is_space l1 = true /\ forallb is_space r1 = true /\
    forallb is_space l2 = true /\ forallb is_space r2 = true /\
    same_text is_sp a b.

(** The location holds one of the three markers of a page behind the
    login. *)
Definition has_marker (location : str) : Prop :=
  exists a m b,
    In m [lit "dashboard"; lit "home"; lit "loggedin"] /\
    location = a ++ m ++ b.

(** The reports by which an attempt shows how it ended. *)
Definition success_report (name : str) : event :=
  Print "Successfully logged in with account: {}" [name].

Definition failure_report (name : str) : event :=
  Print "Login failed for account: {}." [name].

Definition fault_report (name : str) (e : exn) : event :=
  Print "An error occurred during login for account {}: {}" [name; exn_text e].

(** How often the session has been closed. *)
Fixpoint quit_count (events : list event) : nat :=
  match events with
  | [] => 0
  | Call Quit :: rest => S (quit_count rest)
  | _ :: rest => quit_count rest
  end.



(** The world after some more events. *)
Definition add_events (events : list event) (w : world) : world :=
  {| env_file := env_file w; environ := environ w; stdin := stdin w;
     log := events ++ log w; chromedriver_exists := chromedriver_exists w;
     session := session w |}.



(** A computation that leaves the session open and as it is, and ends. *)
Definition quiet {A} (m : M A) : Prop :=
  forall w,
    quit_count (log (snd (m w))) = quit_count (log w) /\
    session (snd (m w)) = session w /\
    fst (m w) <> OutOfFuel.

(** ** Worlds in which the script is run below *)

(** A browser that starts, and fails to load the login page. *)
Definition unreachable_portal : browser :=
  {| fault := fun _ op =>
       match op with
       | Get _ => Some (Exception "WebDriverException")
       | _ => None
       end;
     current_url := [];
     error_text := [] |}.

(** The store with the one account [Acme Co]; the operator asks for a login
    with it and then for the exit. *)
Definition acme_world : world :=
  {| env_file :=
       env_entry (lit "Trade_Name_1") (lit "Acme Co") ++
       env_entry (lit "GST_UserID_1") (lit "u1") ++
       env_entry (lit "GST_PSSWD_1") (lit "p1");
     environ :=
       [(lit "Trade_Name_1", lit "Acme Co");
        (lit "GST_UserID_1", lit "u1");
        (lit "GST_PSSWD_1", lit "p1")];
     stdin := [lit "2"; lit "Acme Co"; lit "3"];
     log := [];
     chromedriver_exists := true;
     session := unreachable_portal |}.

(** A world with a given credential file and operator, and nothing else. *)
Definition store_world (content : str) (lines : list str) : world :=
  {| env_file := content;
     environ := [];
     stdin := lines;
     log := [];
     chromedriver_exists := true;
     session := unreachable_portal |}.

(** A credential file whose last line has no newline after it. *)
Definition unterminated_store : str :=
  lit "Trade_Name_1=" ++ dq :: lit "A" ++ [dq].

Definition unterminated_beta_store : str :=
  env_entry (lit "Trade_Name_2") (lit "Beta") ++
  lit "GST_PSSWD_2=" ++ dq :: lit "p" ++ [dq].

(** The value the file gives a key: what follows the equals sign on the last
    line that has the key. *)
Definition file_value (key content : str) : option str :=
  fold_left
    (fun found line =>
       match after_prefix (key ++ [eq_sign]) (strip line) with
       | Some value => Some value
       | None => found
       end)
    (readlines content) None.

(** A browser in which nothing raises and the login leads to the dashboard. *)
Definition dashboard_portal : browser :=
  {| fault := fun _ _ => None;
     current_url := lit "https://services.gst.gov.in/services/auth/dashboard";
     error_text := [] |}.

Definition dashboard_world : world :=
  {| env_file := [];
     environ := [];
     stdin := [lit ""];
     log := [];
     chromedriver_exists := true;
     session := dashboard_portal |}.

(** A store with the accounts 1 and 3 and two malformed lines. *)
Definition store_1_3 : str :=
  env_entry (lit "Trade_Name_1") (lit "Acme Co") ++
  lit "Trade_Name_=x" ++ nl ::
  env_entry (lit "Trade_Name_3") (lit "Beta") ++
  lit "Trade_Name_abc=x" ++ [nl].


(** ** Further notions *)

(** A value as [update_env_variable] writes it: between double quotes. *)
Definition quoted (value : str) : str := dq :: value ++ [dq].


(** A store in which two lines carry one name. *)
Definition store_twice : str :=
  env_entry (lit "Trade_Name_1") (lit "Acme Co") ++
  env_entry (lit "Trade_Name_5") (lit "ACMECO").

(** The value of [os.getenv(key, default)] in an environment. *)
Definition value_or (e : dict) (key default : str) : str :=
  match dict_get key e with Some v => v | None => default end.

(** Two environments that differ at most in the values of the password
    keys, which are set and empty in the one where they are in the other. *)
Definition same_but_passwords (e1 e2 : dict) : Prop :=
  forall key,
    (startswith PASSWORD_PREFIX key = false ->
     dict_get key e1 = dict_get key e2) /\
    is_empty (value_or e1 key (lit "N/A")) =
    is_empty (value_or e2 key (lit "N/A")).

(** Two worlds are told apart neither by what has happened nor by anything
    but passwords in the environment. *)
Definition alike (w1 w2 : world) : Prop :=
  log w1 = log w2 /\ same_but_passwords (environ w1) (environ w2).

(** The world of [Acme Co] with another password. *)
Definition acme_world_other_password : world :=
  set_environ
    [(lit "Trade_Name_1", lit "Acme Co");
     (lit "GST_UserID_1", lit "u1");
     (lit "GST_PSSWD_1", lit "another")]
    acme_world.

(** The index by which [sorted] orders the items of the mapping. *)
Definition index_of (item : str * str) : nat := int (snd item).

(** A line that is none of the choices of a menu. *)
Definition no_choice_of (choices : list str) (line : str) : Prop :=
  ~ In (strip line) choices.

(** The choices of the main menu and of the menu of the credentials. *)
Definition main_choices : list str := [lit "1"; lit "2"; lit "3"].
Definition credential_choices : list str :=
  [lit "1"; lit "2"; lit "3"; lit "4"].

(** A computation that leaves the credential file and the environment as
    they are. *)
Definition frozen {A} (m : M A) : Prop :=
  forall w,
    env_file (snd (m w)) = env_file w /\
    environ (snd (m w)) = environ w.

(** The calls made on the browser, latest first. *)
Fixpoint calls (events : list event) : list driver_op :=
  match events with
  | [] => []
  | Call op :: rest => op :: calls rest
  | _ :: rest => calls rest
  end.

(** A computation that, run on the file [file0] and in the environment
    [env0], makes no call on the browser and leaves both as they are. *)
Definition calm (file0 : str) (env0 : dict) {A} (m : M A) : Prop :=
  forall w,
    env_file w = file0 -> environ w = env0 ->
    calls (log (snd (m w))) = calls (log w) /\
    env_file (snd (m w)) = file0 /\
    environ (snd (m w)) = env0.

(** No account of the store has both a username and a password in the
    environment. *)
Definition no_usable_account (mapping env : dict) : Prop :=
  forall k index,
    In (k, index) mapping ->
    truthy (dict_get (USER_ID_PREFIX ++ index) env) &&
    truthy (dict_get (PASSWORD_PREFIX ++ index) env) = false.

(** The world of [Acme Co] without the password in the environment. *)
Definition acme_world_without_password : world :=
  set_environ
    [(lit "Trade_Name_1", lit "Acme Co"); (lit "GST_UserID_1", lit "u1")]
    acme_world.

(** A browser in which every wait for an element of the page times out. *)
Definition stalled_portal : browser :=
  {| fault := fun _ op =>
       match op with
       | WaitPresence _ _ => Some (Exception "TimeoutException")
       | WaitClickable _ _ => Some (Exception "TimeoutException")
       | _ => None
       end;
     current_url := [];
     error_text := [] |}.

Definition stalled_world : world :=
  {| env_file := []; environ := []; stdin := []; log := [];
     chromedriver_exists := true; session := stalled_portal |}.

(** * Properties *)

(** ** Characters and strings *)

Lemma eqb_char_true (a b : ascii) : eqb_char a b = true -> a = b.
Proof.
  unfold eqb_char, code. intros H. apply Nat.eqb_eq in H.
  rewrite <- (ascii_nat_embedding a), <- (ascii_nat_embedding b).
  now rewrite H.
Qed.

Lemma eqb_char_refl (a : ascii) : eqb_char a a = true.
Proof. unfold eqb_char. apply Nat.eqb_refl. Qed.

Lemma eqb_char_false (a b : ascii) : eqb_char a b = false -> a <> b.
Proof. intros H ->. rewrite eqb_char_refl in H. discriminate. Qed.

Lemma str_eqb_eq (a b : str) : Str.eqb a b = true <-> a = b.
Proof.
  revert b. induction a as [|x a IH]; intros [|y b]; simpl; split;
    try discriminate; try reflexivity.
  - intros H. apply andb_true_iff in H as [H1 H2].
    apply eqb_char_true in H1. apply IH in H2. congruence.
  - intros H. injection H as -> ->. rewrite eqb_char_refl. simpl.
    now apply IH.
Qed.

Lemma str_eqb_refl (a : str) : Str.eqb a a = true.
Proof. now apply str_eqb_eq. Qed.

Lemma str_eqb_neq (a b : str) : Str.eqb a b = false <-> a <> b.
Proof.
  split.
  - intros H ->. rewrite str_eqb_refl in H. discriminate.
  - intros H. destruct (Str.eqb a b) eqn:E; [|reflexivity].
    apply str_eqb_eq in E. contradiction.
Qed.

Lemma startswith_spec (p s : str) :
  startswith p s = true <-> exists r, s = p ++ r.
Proof.
  revert s. induction p as [|x p IH]; intros s; simpl.
  - split; [intros _; now exists s | reflexivity].
  - destruct s as [|y s].
    + split; [discriminate | intros [r H]; discriminate].
    + rewrite andb_true_iff, IH. split.
      * intros [H [r ->]]. apply eqb_char_true in H. subst. now exists r.
      * intros [r H]. injection H as -> ->.
        split; [apply eqb_char_refl | now exists r].
Qed.

Lemma after_prefix_spec (p s r : str) :
  after_prefix p s = Some r <-> s = p ++ r.
Proof.
  revert s. induction p as [|x p IH]; intros s; simpl.
  - split; congruence.
  - destruct s as [|y s]; [split; discriminate|].
    destruct (eqb_char x y) eqn:E.
    + apply eqb_char_true in E. subst. rewrite IH. split; congruence.
    + apply eqb_char_false in E. split; [discriminate | congruence].
Qed.

(** [p in s] holds exactly when [s] is some text, then [p], then some text. *)
Lemma contains_spec (p s : str) :
  contains p s = true <-> exists a b, s = a ++ p ++ b.
Proof.
  induction s as [|c s IH].
  - simpl. rewrite orb_false_r, startswith_spec. split.
    + intros [r H]. now exists [], r.
    + intros [a [b H]]. destruct a; [now exists b | discriminate].
  - cbn [contains]. rewrite orb_true_iff, startswith_spec, IH. split.
    + intros [[r H] | [a [b H]]].
      * now exists [], r.
      * exists (c :: a), b. simpl. now rewrite H.
    + intros [[|x a] [b H]].
      * left. now exists b.
      * right. injection H as -> H. now exists a, b.
Qed.

Lemma takewhile_dropwhile (p : ascii -> bool) (s : str) :
  takewhile p s ++ dropwhile p s = s.
Proof.
  induction s as [|c s IH]; simpl; [reflexivity|].
  destruct (p c); simpl; [now rewrite IH | reflexivity].
Qed.

Lemma takewhile_all (p : ascii -> bool) (s : str) :
  forallb p (takewhile p s) = true.
Proof.
  induction s as [|c s IH]; simpl; [reflexivity|].
  destruct (p c) eqn:E; simpl; [now rewrite E | reflexivity].
Qed.

Lemma takewhile_app (p : ascii -> bool) (a : str) (c : ascii) (b : str) :
  forallb p a = true -> p c = false ->
  takewhile p (a ++ c :: b) = a /\ dropwhile p (a ++ c :: b) = c :: b.
Proof.
  intros Ha Hc. induction a as [|x a IH]; simpl in *.
  - now rewrite Hc.
  - apply andb_true_iff in Ha as [Hx Ha]. rewrite Hx.
    destruct (IH Ha) as [-> ->]. now split.
Qed.

Lemma dropwhile_all (p : ascii -> bool) (s : str) :
  forallb p s = true -> dropwhile p s = [].
Proof.
  induction s as [|c s IH]; simpl; [reflexivity|].
  intros H. apply andb_true_iff in H as [-> H]. auto.
Qed.


Lemma dropwhile_app_all (p : ascii -> bool) (a s : str) :
  forallb p a = true -> dropwhile p (a ++ s) = dropwhile p s.
Proof.
  induction a as [|c a IH]; simpl; [reflexivity|].
  intros H. apply andb_true_iff in H as [-> H]. auto.
Qed.

(** ** The pattern of well-formed trade-name lines *)

Lemma is_nl_spec (c : ascii) : is_nl c = true <-> c = nl.
Proof.
  unfold is_nl, nl, code. rewrite Nat.eqb_eq. split.
  - intros H. rewrite <- (ascii_nat_embedding c). now rewrite H.
  - intros ->. reflexivity.
Qed.

Lemma forallb_not_nl (v : str) :
  forallb (fun x => negb (is_nl x)) v = true <-> Forall (fun c => c <> nl) v.
Proof.
  rewrite forallb_forall, Forall_forall. split; intros H x Hx.
  - intros ->. specialize (H _ Hx). discriminate.
  - destruct (is_nl x) eqn:E; [|reflexivity].
    apply is_nl_spec in E. now apply H in Hx.
Qed.

Lemma forallb_Forall (p : ascii -> bool) (s : str) :
  forallb p s = true <-> Forall (fun c => p c = true) s.
Proof. rewrite forallb_forall, Forall_forall. reflexivity. Qed.

(** The matcher accepts exactly the lines of the pattern, with its groups. *)
Lemma match_trade_name_spec (line ds value : str) :
  match_trade_name line = Some (ds, value) <->
  line = TRADE_NAME_PREFIX ++ ds ++ eq_sign :: value /\
  ds <> [] /\
  Forall (fun c => is_digit c = true) ds /\
  Forall (fun c => c <> nl) value.
Proof.
  unfold match_trade_name. split.
  - destruct (after_prefix TRADE_NAME_PREFIX line) as [rest|] eqn:E;
      [|discriminate].
    apply after_prefix_spec in E.
    pose proof (takewhile_dropwhile is_digit rest) as Hsplit.
    pose proof (takewhile_all is_digit rest) as Hall.
    destruct (takewhile is_digit rest) as [|d ds'] eqn:Et; [discriminate|].
    destruct (dropwhile is_digit rest) as [|c v] eqn:Ed; [discriminate|].
    destruct (eqb_char c eq_sign) eqn:Ec; [|discriminate].
    destruct (forallb (fun x => negb (is_nl x)) v) eqn:Ev; [|discriminate].
    simpl. intros H. injection H as <- <-.
    apply eqb_char_true in Ec. subst c.
    repeat split.
    + now rewrite E, <- Hsplit.
    + discriminate.
    + now apply forallb_Forall.
    + now apply forallb_not_nl.
  - intros (-> & Hne & Hds & Hv).
    assert (E : after_prefix TRADE_NAME_PREFIX
                  (TRADE_NAME_PREFIX ++ ds ++ eq_sign :: value)
                = Some (ds ++ eq_sign :: value))
      by now apply after_prefix_spec.
    rewrite E.
    destruct (@takewhile_app is_digit ds eq_sign value) as [-> ->];
      [now apply forallb_Forall | reflexivity |].
    destruct ds as [|d ds]; [contradiction|].
    rewrite eqb_char_refl. simpl.
    apply forallb_not_nl in Hv. now rewrite Hv.
Qed.

Lemma well_formed_iff_match (line : str) (i : nat) (value : str) :
  well_formed_trade_line line i value <->
  exists ds, match_trade_name (strip line) = Some (ds, value) /\ i = int ds.
Proof.
  unfold well_formed_trade_line. split.
  - intros (ds & H1 & H2 & H3 & H4 & H5). exists ds. split; [|assumption].
    now apply match_trade_name_spec.
  - intros (ds & H & H5). apply match_trade_name_spec in H.
    destruct H as (H1 & H2 & H3 & H4). now exists ds.
Qed.

Lemma not_well_formed_no_match (line : str) :
  (forall i value, ~ well_formed_trade_line line i value) ->
  match_trade_name (strip line) = None.
Proof.
  intros H. destruct (match_trade_name (strip line)) as [[ds v]|] eqn:E;
    [|reflexivity].
  exfalso. apply (H (int ds) v). apply well_formed_iff_match. now exists ds.
Qed.

(** ** The scan of the store: [nextIndex] and malformed lines *)

Lemma scan_line_no_match (st : dict * nat) (line : str) :
  match_trade_name (strip line) = None -> scan_line st line = st.
Proof. intros H. unfold scan_line. destruct st. now rewrite H. Qed.

Lemma scan_line_match (m : dict) (h : nat) (line ds v : str) :
  match_trade_name (strip line) = Some (ds, v) ->
  scan_line (m, h) line =
  (dict_set (stored_key v) (of_nat (int ds)) m, Nat.max h (int ds)).
Proof.
  intros H. unfold scan_line. rewrite H. f_equal.
  destruct (h <? int ds) eqn:E.
  - apply Nat.ltb_lt in E. lia.
  - apply Nat.ltb_ge in E. lia.
Qed.

(** The second component of the scan is the greatest index met, or the
    starting value when that is greater. *)
Lemma fold_scan_highest (lines : list str) (m : dict) (h : nat) :
  h <= snd (fold_left scan_line lines (m, h)) /\
  (forall line ds v, In line lines ->
     match_trade_name (strip line) = Some (ds, v) ->
     int ds <= snd (fold_left scan_line lines (m, h))) /\
  (snd (fold_left scan_line lines (m, h)) = h \/
   exists line ds v, In line lines /\
     match_trade_name (strip line) = Some (ds, v) /\
     int ds = snd (fold_left scan_line lines (m, h))).
Proof.
  revert m h. induction lines as [|l lines IH]; intros m h.
  - simpl. split; [lia | split]; [intros ? ? ? [] | now left].
  - cbn [fold_left].
    destruct (match_trade_name (strip l)) as [[ds v]|] eqn:E.
    + rewrite (scan_line_match m h l E).
      specialize (IH (dict_set (stored_key v) (of_nat (int ds)) m)
                     (Nat.max h (int ds))).
      destruct IH as (H1 & H2 & H3).
      set (r := fold_left scan_line lines _) in *.
      split; [|split].
      * lia.
      * intros line ds' v' [<- | Hin] Hm.
        -- rewrite E in Hm. injection Hm as <- <-. lia.
        -- eauto.
      * destruct H3 as [H3 | (line & ds' & v' & Hin & Hm & Hi)].
        -- destruct (Nat.max_spec h (int ds)) as [[_ Hx] | [_ Hx]].
           ++ right. exists l, ds, v. repeat split; auto.
              ** now left.
              ** lia.
           ++ left. lia.
        -- right. exists line, ds', v'. repeat split; auto. now right.
    + rewrite (scan_line_no_match (m, h) l E).
      specialize (IH m h). destruct IH as (H1 & H2 & H3).
      split; [|split].
      * assumption.
      * intros line ds' v' [<- | Hin] Hm; [congruence | eauto].
      * destruct H3 as [H3 | (line & ds' & v' & Hin & Hm & Hi)];
          [now left|].
        right. exists line, ds', v'. repeat split; auto. now right.
Qed.

Lemma next_index_unfold (content : str) :
  next_index content = snd (scan_lines (readlines content)) + 1.
Proof.
  unfold next_index, get_account_mapping, account_mapping_of_lines.
  now destruct (scan_lines (readlines content)).
Qed.

(** C4: [nextIndex] is above every index of a well-formed trade-name line of
    the store and, unless it is 1, one more than the index of such a line: it
    is the greatest index plus one, and 1 when the store has no such line.
    A store whose well-formed lines carry exactly the indices 1 and 3 gives
    4. *)
Theorem next_index_is_max_plus_one (content : str) :
  (forall line i v,
      In line (readlines content) -> well_formed_trade_line line i v ->
      i < next_index content) /\
  (next_index content = 1 \/
   exists line v,
     In line (readlines content) /\
     well_formed_trade_line line (next_index content - 1) v) /\
  ((forall line i v,
       In line (readlines content) -> ~ well_formed_trade_line line i v) ->
   next_index content = 1) /\
  ((forall i,
       (exists line v,
           In line (readlines content) /\ well_formed_trade_line line i v) <->
       i = 1 \/ i = 3) ->
   next_index content = 4).
Proof.
  rewrite next_index_unfold.
  pose proof (fold_scan_highest (readlines content) [] 0) as Hscan.
  change (fold_left scan_line (readlines content) ([], 0))
    with (scan_lines (readlines content)) in Hscan.
  destruct Hscan as (_ & Hub & Hex).
  set (h := snd (scan_lines (readlines content))) in *.
  assert (Hlt : forall line i v,
             In line (readlines content) -> well_formed_trade_line line i v ->
             i < h + 1).
  { intros line i v Hin Hwf. apply well_formed_iff_match in Hwf.
    destruct Hwf as (ds & Hm & ->). specialize (Hub _ _ _ Hin Hm). lia. }
  assert (Hmax : h + 1 = 1 \/
                 exists line v, In line (readlines content) /\
                   well_formed_trade_line line (h + 1 - 1) v).
  { destruct Hex as [-> | (line & ds & v & Hin & Hm & Hi)]; [now left|].
    right. exists line, v. split; [assumption|].
    apply well_formed_iff_match. exists ds. split; [assumption | lia]. }
  split; [assumption | split; [assumption | split]].
  - intros Hnone. destruct Hmax as [H | (line & v & Hin & Hwf)];
      [assumption|]. now apply Hnone in Hwf.
  - intros Hset.
    assert (H3 : 3 < h + 1).
    { destruct (proj2 (Hset 3)) as (line & v & Hin & Hwf); [now right|].
      eapply Hlt; eauto. }
    destruct Hmax as [H | (line & v & Hin & Hwf)]; [lia|].
    assert (Hi : h + 1 - 1 = 1 \/ h + 1 - 1 = 3)
      by (apply Hset; now exists line, v).
    lia.
Qed.

(** C9: a line of the file that is no well-formed trade-name line (as
    [Trade_Name_=x] and [Trade_Name_abc=x] are none) leaves the scan, a total
    function, with the result it has on the file without that line: the
    mapping, from which the list of accounts is made, and [nextIndex] are
    those of the other lines. *)
Theorem malformed_lines_ignored (content : str) (before : list str)
    (bad : str) (after : list str) :
  readlines content = before ++ bad :: after ->
  (forall i v, ~ well_formed_trade_line bad i v) ->
  get_account_mapping content = account_mapping_of_lines (before ++ after).
Proof.
  intros Hlines Hbad. unfold get_account_mapping, account_mapping_of_lines.
  rewrite Hlines. unfold scan_lines. rewrite !fold_left_app. cbn [fold_left].
  rewrite scan_line_no_match by now apply not_well_formed_no_match.
  reflexivity.
Qed.

(** ** The file as lines *)








(** ** [update_env_variable]: the frame *)



(** The test of line 70 asks whether the key of the line is [key], for a
    [key] without an equals sign. *)
Lemma startswith_key_line_key (key line : str) :
  ~ In eq_sign key ->
  startswith (key ++ [eq_sign]) (strip line) = true <->
  line_key line = Some key.
Proof.
  intros Hkey. unfold line_key.
  assert (Hall : forallb not_eq_sign key = true).
  { apply forallb_forall. intros x Hx. unfold not_eq_sign.
    destruct (eqb_char x eq_sign) eqn:E; [|reflexivity].
    apply eqb_char_true in E. subst. contradiction. }
  assert (Heq : not_eq_sign eq_sign = false)
    by (unfold not_eq_sign; now rewrite eqb_char_refl).
  rewrite startswith_spec. split.
  - intros [r Hr]. rewrite Hr, <- app_assoc. simpl.
    destruct (takewhile_app not_eq_sign key eq_sign r Hall Heq) as [-> ->].
    reflexivity.
  - pose proof (takewhile_dropwhile not_eq_sign (strip line)) as Hsplit.
    pose proof (takewhile_all not_eq_sign (strip line)) as Htw.
    destruct (dropwhile not_eq_sign (strip line)) as [|c r] eqn:Ed;
      [discriminate|].
    intros H. injection H as H. rewrite H in Hsplit.
    assert (Hc : not_eq_sign c = false).
    { clear - Ed. revert Ed. generalize (strip line). intros t.
      induction t as [|y t IH]; simpl; [discriminate|].
      destruct (not_eq_sign y) eqn:Ey; [assumption|].
      intros H. injection H as -> _. assumption. }
    unfold not_eq_sign in Hc. apply negb_false_iff, eqb_char_true in Hc.
    subst c. exists r. rewrite <- Hsplit, <- app_assoc. reflexivity.
Qed.


(** ** [add_new_account]: a rejected record writes nothing *)

(** Symbolic execution of the monad: the operations are unfolded and the
    fields of the world are read, nothing else is computed. *)
Ltac run_io :=
  cbv beta iota zeta delta
    [bind ret raise print input sleep getenv getenv_or get_world
     read_account_mapping record set_stdin set_env_file set_environ
     stdin env_file environ log chromedriver_exists session fst snd negb].

Lemma is_empty_true (s : str) : is_empty s = true <-> s = [].
Proof. destruct s; simpl; split; congruence. Qed.

Lemma is_empty_false (s : str) : is_empty s = false <-> s <> [].
Proof. destruct s; simpl; split; congruence. Qed.

Lemma blank_credentials (username password : str) :
  username = [] \/ password = [] ->
  is_empty username || is_empty password = true.
Proof.
  intros [-> | ->]; simpl; [reflexivity | apply orb_true_r].
Qed.

(** C10: when the trade name typed for an add is blank, or the username or
    the password typed after it is blank, [add_new_account] returns without
    a write: the text of the credential file is what it was. *)
Theorem add_rejected_writes_nothing
    (load_dotenv : str -> bool -> dict -> dict) (w : world) :
  add_rejected (fst (get_account_mapping (env_file w))) (stdin w) ->
  fst (add_new_account load_dotenv w) = Ok tt /\
  env_file (snd (add_new_account load_dotenv w)) = env_file w.
Proof.
  destruct w as [file env inp lg cd sess]. cbn [env_file stdin].
  unfold add_new_account.
  destruct (get_account_mapping file) as [mapping next] eqn:Escan.
  cbn [fst]. intros Hrej.
  inversion Hrej as [name rest Hname Hinp
                    | name u p rest Hname Hnew Hblank Hinp
                    | name index answer u p rest Hname Hold Hyes Hblank Hinp];
    subst inp.
  - run_io. rewrite Escan. run_io. rewrite Hname. run_io.
    split; reflexivity.
  - apply is_empty_false in Hname. apply blank_credentials in Hblank.
    run_io. rewrite Escan. run_io. rewrite Hname, Hnew. run_io.
    rewrite Hblank. run_io. split; reflexivity.
  - apply is_empty_false in Hname. apply blank_credentials in Hblank.
    run_io. rewrite Escan. run_io. rewrite Hname, Hold. run_io.
    rewrite Hyes, str_eqb_refl. run_io.
    rewrite Hblank. run_io. split; reflexivity.
Qed.

(** ** Normalisation and [resolve] *)

Lemma code_lt_256 (c : ascii) : code c < 256.
Proof. apply nat_ascii_bounded. Qed.

Lemma code_ascii_of_nat (n : nat) : n < 256 -> code (ascii_of_nat n) = n.
Proof. apply nat_ascii_embedding. Qed.

Lemma code_inj (c d : ascii) : code c = code d -> c = d.
Proof.
  unfold code. intros H.
  rewrite <- (ascii_nat_embedding c), <- (ascii_nat_embedding d).
  now rewrite H.
Qed.

Lemma is_lower_spec (c : ascii) :
  is_lower c = true <-> 97 <= code c <= 122.
Proof.
  unfold is_lower. rewrite andb_true_iff, !Nat.leb_le. reflexivity.
Qed.

Lemma is_space_spec (c : ascii) :
  is_space c = true <-> 9 <= code c <= 13 \/ 28 <= code c <= 32.
Proof.
  unfold is_space. rewrite orb_true_iff, !andb_true_iff, !Nat.leb_le.
  reflexivity.
Qed.

Lemma is_sp_spec (c : ascii) : is_sp c = true <-> code c = 32.
Proof. unfold is_sp. apply Nat.eqb_eq. Qed.

Lemma code_upper_char (c : ascii) :
  code (upper_char c) = if is_lower c then code c - 32 else code c.
Proof.
  unfold upper_char. destruct (is_lower c) eqn:E; [|reflexivity].
  apply code_ascii_of_nat. pose proof (code_lt_256 c). lia.
Qed.

Lemma bool_eq_iff (a b : bool) : (a = true <-> b = true) -> a = b.
Proof. destruct a, b; intros [H1 H2]; auto; symmetry; auto. Qed.

Lemma is_lower_upper_char (c : ascii) : is_lower (upper_char c) = false.
Proof.
  destruct (is_lower (upper_char c)) eqn:E; [|reflexivity].
  apply is_lower_spec in E. rewrite code_upper_char in E.
  destruct (is_lower c) eqn:Ec.
  - apply is_lower_spec in Ec. lia.
  - apply is_lower_spec in E. congruence.
Qed.

Lemma upper_char_idempotent (c : ascii) :
  upper_char (upper_char c) = upper_char c.
Proof.
  unfold upper_char at 1. now rewrite is_lower_upper_char.
Qed.

Lemma is_space_upper_char (c : ascii) : is_space (upper_char c) = is_space c.
Proof.
  apply bool_eq_iff. rewrite !is_space_spec, code_upper_char.
  destruct (is_lower c) eqn:E; [|reflexivity].
  apply is_lower_spec in E. lia.
Qed.

Lemma is_sp_upper_char (c : ascii) : is_sp (upper_char c) = is_sp c.
Proof.
  apply bool_eq_iff. rewrite !is_sp_spec, code_upper_char.
  destruct (is_lower c) eqn:E; [|reflexivity].
  apply is_lower_spec in E. lia.
Qed.

Lemma is_sp_is_space (c : ascii) : is_sp c = true -> is_space c = true.
Proof. rewrite is_sp_spec, is_space_spec. lia. Qed.

Lemma same_letter_upper (c d : ascii) :
  same_letter c d -> upper_char c = upper_char d.
Proof.
  intros [-> | [[Hc E] | [Hd E]]]; [reflexivity | |];
    apply code_inj; rewrite !code_upper_char.
  - rewrite Hc. apply is_lower_spec in Hc.
    destruct (is_lower d) eqn:Ed; [apply is_lower_spec in Ed|]; lia.
  - rewrite Hd. apply is_lower_spec in Hd.
    destruct (is_lower c) eqn:Ec; [apply is_lower_spec in Ec|]; lia.
Qed.

Lemma same_letter_is_sp (c d : ascii) : same_letter c d -> is_sp c = is_sp d.
Proof.
  intros H. apply same_letter_upper in H.
  now rewrite <- (is_sp_upper_char c), <- (is_sp_upper_char d), H.
Qed.

Lemma remove_spaces_upper (s : str) :
  remove_spaces (upper s) = upper (remove_spaces s).
Proof.
  unfold remove_spaces, upper. induction s as [|c s IH]; simpl;
    [reflexivity|].
  rewrite is_sp_upper_char. destruct (is_sp c); simpl; now rewrite IH.
Qed.

Lemma remove_spaces_idempotent (s : str) :
  remove_spaces (remove_spaces s) = remove_spaces s.
Proof.
  unfold remove_spaces. induction s as [|c s IH]; simpl; [reflexivity|].
  destruct (is_sp c) eqn:E; simpl; [assumption|]. now rewrite E, IH.
Qed.

Lemma upper_idempotent (s : str) : upper (upper s) = upper s.
Proof.
  unfold upper. rewrite map_map. apply map_ext. apply upper_char_idempotent.
Qed.

(** Normalising a normalised name changes nothing. *)
Lemma normalize_idempotent (s : str) : normalize (normalize s) = normalize s.
Proof.
  unfold normalize.
  now rewrite remove_spaces_upper, remove_spaces_idempotent, upper_idempotent.
Qed.

Lemma same_text_normalize (a b : str) :
  same_text is_sp a b -> normalize a = normalize b.
Proof.
  unfold normalize, upper, remove_spaces.
  induction 1 as [|c d a b Hcd _ IH|c a b Hc _ IH|c a b Hc _ IH]; simpl.
  - reflexivity.
  - rewrite (same_letter_is_sp Hcd). destruct (is_sp d); simpl;
      [assumption|]. now rewrite IH, (same_letter_upper Hcd).
  - now rewrite Hc.
  - now rewrite Hc.
Qed.

Lemma dropwhile_space_upper (s : str) :
  dropwhile is_space (upper s) = upper (dropwhile is_space s).
Proof.
  unfold upper. induction s as [|c s IH]; simpl; [reflexivity|].
  rewrite is_space_upper_char. destruct (is_space c); [assumption|].
  reflexivity.
Qed.

Lemma dropwhile_space_remove_spaces (s : str) :
  dropwhile is_space (remove_spaces s) = remove_spaces (dropwhile is_space s).
Proof.
  unfold remove_spaces. induction s as [|c s IH]; simpl; [reflexivity|].
  destruct (is_sp c) eqn:E; simpl.
  - rewrite (is_sp_is_space c E). assumption.
  - destruct (is_space c); [assumption|]. simpl. now rewrite E.
Qed.

Lemma dropwhile_space_normalize (s : str) :
  dropwhile is_space (normalize s) = normalize (dropwhile is_space s).
Proof.
  unfold normalize.
  now rewrite dropwhile_space_upper, dropwhile_space_remove_spaces.
Qed.

Lemma normalize_rev (s : str) : normalize (rev s) = rev (normalize s).
Proof.
  unfold normalize, upper, remove_spaces. now rewrite filter_rev, map_rev.
Qed.

(** Stripping and normalising may be done in either order. *)
Lemma normalize_strip (s : str) : normalize (strip s) = strip (normalize s).
Proof.
  unfold strip, strip_with.
  rewrite normalize_rev, <- dropwhile_space_normalize, normalize_rev.
  now rewrite <- dropwhile_space_normalize.
Qed.

Lemma dropwhile_app_keep (p : ascii -> bool) (x z : str) :
  dropwhile p x <> [] -> dropwhile p (x ++ z) = dropwhile p x ++ z.
Proof.
  induction x as [|c x IH]; simpl; [congruence|].
  destruct (p c); [assumption | reflexivity].
Qed.

(** White space added at the ends is stripped with the rest. *)
Lemma strip_with_padding (p : ascii -> bool) (l x r : str) :
  forallb p l = true -> forallb p r = true ->
  strip_with p (l ++ x ++ r) = strip_with p x.
Proof.
  intros Hl Hr. unfold strip_with. rewrite dropwhile_app_all by assumption.
  assert (Hrr : forallb p (rev r) = true).
  { apply forallb_forall. intros c Hc. apply in_rev in Hc.
    rewrite forallb_forall in Hr. now apply Hr. }
  destruct (dropwhile p x) as [|c y] eqn:E.
  - assert (Hx : forallb p x = true).
    { clear - E. induction x as [|c x IH]; simpl in *; [reflexivity|].
      destruct (p c); [now apply IH | discriminate]. }
    rewrite dropwhile_app_all by assumption.
    rewrite (dropwhile_all p r Hr). reflexivity.
  - rewrite dropwhile_app_keep by congruence. rewrite E, rev_app_distr.
    now rewrite dropwhile_app_all.
Qed.

Lemma forallb_space_normalize (l : str) :
  forallb is_space l = true -> forallb is_space (normalize l) = true.
Proof.
  rewrite !forallb_forall. intros H c Hc.
  unfold normalize, upper, remove_spaces in Hc.
  apply in_map_iff in Hc. destruct Hc as (d & <- & Hd).
  apply filter_In in Hd. rewrite is_space_upper_char. now apply H.
Qed.

Lemma normalize_app (a b : str) : normalize (a ++ b) = normalize a ++ normalize b.
Proof.
  unfold normalize, upper, remove_spaces. now rewrite filter_app, map_app.
Qed.

Lemma same_name_normalize (t input : str) :
  same_name t input -> normalize (strip t) = normalize (strip input).
Proof.
  intros (l1 & a & r1 & l2 & b & r2 & -> & -> & H1 & H2 & H3 & H4 & Hab).
  rewrite !normalize_strip, !normalize_app. unfold strip.
  rewrite !strip_with_padding by now apply forallb_space_normalize.
  now rewrite (same_text_normalize Hab).
Qed.

(** C3, amended: an input that differs from a trade name only in the case of
    its ASCII letters, in white space at its ends and in space characters
    anywhere resolves as the name does, whatever the store; and normalising a
    normalised name changes nothing. *)
Theorem resolve_ignores_case_and_spaces (mapping : dict) (t input : str) :
  same_name t input ->
  resolve mapping input = resolve mapping t /\
  normalize (normalize (strip input)) = normalize (strip input).
Proof.
  intros H. split.
  - unfold resolve. now rewrite (same_name_normalize H).
  - apply normalize_idempotent.
Qed.

(** C3 as the specification words it, with white space of any kind ignored
    anywhere, fails: a tab inside the name is kept by the
    normalisation, which removes space characters only. *)
Lemma resolve_keeps_internal_tab :
  let t := lit "Acme Co" in
  let input := lit "Acme" ++ [ascii_of_nat 9] ++ lit "Co" in
  let mapping :=
    fst (get_account_mapping (env_entry (lit "Trade_Name_1") t)) in
  same_text is_space t input /\
  resolve mapping t = Some (lit "1") /\
  resolve mapping input = None.
Proof.
  cbv zeta. split; [|split; vm_compute; reflexivity].
  unfold lit. simpl.
  do 4 (apply same_char; [now left|]).
  apply same_skip_left; [reflexivity|].
  apply same_skip_right; [reflexivity|].
  do 2 (apply same_char; [now left|]).
  apply same_nil.
Qed.

(** ** The login attempt: classification *)

Lemma has_marker_spec (u : str) :
  contains (lit "dashboard") u || contains (lit "home") u
    || contains (lit "loggedin") u = true <-> has_marker u.
Proof.
  rewrite !orb_true_iff, !contains_spec. unfold has_marker. split.
  - intros [[(a & b & H) | (a & b & H)] | (a & b & H)].
    + exists a, (lit "dashboard"), b. split; [now left | assumption].
    + exists a, (lit "home"), b. split; [right; now left | assumption].
    + exists a, (lit "loggedin"), b.
      split; [right; right; now left | assumption].
  - intros (a & m & b & [<- | [<- | [<- | []]]] & H).
    + left; left. now exists a, b.
    + left; right. now exists a, b.
    + right. now exists a, b.
Qed.

Lemma call_unfold (op : driver_op) (w : world) :
  call op w =
  (match fault (session w) (log w) op with
   | Some e => Raise e
   | None => Ok tt
   end, record (Call op) w).
Proof. unfold call. now destruct (fault (session w) (log w) op). Qed.

(** When reading the location never raises, the test of line 354 gives the
    truth of [has_marker], having read the location one to three times. *)
Lemma logged_in_spec (w : world) :
  (forall h, fault (session w) h CurrentUrl = None) ->
  exists reads,
    Forall (fun ev => ev = Call CurrentUrl) reads /\
    logged_in w =
    (Ok (contains (lit "dashboard") (current_url (session w))
         || contains (lit "home") (current_url (session w))
         || contains (lit "loggedin") (current_url (session w))),
     {| env_file := env_file w; environ := environ w; stdin := stdin w;
        log := reads ++ log w;
        chromedriver_exists := chromedriver_exists w;
        session := session w |}).
Proof.
  destruct w as [file env inp lg cd sess]. cbn [session]. intros Hok.
  unfold logged_in, url_has. run_io. unfold call. run_io. rewrite Hok.
  destruct (contains (lit "dashboard") (current_url sess)).
  - exists [Call CurrentUrl].
    split; [constructor; [reflexivity | constructor] | reflexivity].
  - rewrite Hok.
    destruct (contains (lit "home") (current_url sess)).
    + exists [Call CurrentUrl; Call CurrentUrl].
      split; [repeat (constructor; [reflexivity|]); constructor
             | reflexivity].
    + rewrite Hok.
      exists [Call CurrentUrl; Call CurrentUrl; Call CurrentUrl].
      split; [repeat (constructor; [reflexivity|]); constructor
             | reflexivity].
Qed.

Lemma reads_hold_no_print (reads : list event) (template : string)
    (args : list str) :
  Forall (fun ev => ev = Call CurrentUrl) reads ->
  ~ In (Print template args) reads.
Proof.
  intros H Hin. rewrite Forall_forall in H. apply H in Hin. discriminate.
Qed.

(** Membership in an explicit list of events, decided by their shape. *)
Ltac events_in :=
  rewrite ?in_app_iff; cbn [In]; auto 10.

Ltac events_not_in Hreads :=
  let H := fresh in
  rewrite ?in_app_iff; cbn [In]; intros H;
  repeat (destruct H as [H | H]; try discriminate H; try contradiction H);
  try (revert H; now apply reads_hold_no_print).

Ltac run_io_in H :=
  cbv beta iota zeta delta
    [bind ret raise print input sleep getenv getenv_or get_world call
     read_account_mapping record set_stdin set_env_file set_environ
     try_except
     stdin env_file environ log chromedriver_exists session fst snd negb]
    in H.

(** C7: once the settle delay is over, the attempt reports success exactly
    when the location of the session holds one of the markers [dashboard],
    [home] and [loggedin], and reports failure exactly when it holds none; on
    failure the attempt goes on without an exception, whether or not the
    error element of the page is found: what the search for it raises is
    swallowed. *)
Theorem evaluate_classifies (name : str) (w : world) :
  (forall h, fault (session w) h CurrentUrl = None) ->
  exists events,
    log (snd (evaluate name w)) = events ++ log w /\
    (In (success_report name) events <-> has_marker (current_url (session w))) /\
    (In (failure_report name) events <->
     ~ has_marker (current_url (session w))) /\
    (has_marker (current_url (session w)) -> stdin w <> [] ->
     fst (evaluate name w) = Ok Break) /\
    (~ has_marker (current_url (session w)) ->
     fst (evaluate name w) = Ok Continue).
Proof.
  intros Hok. destruct (logged_in_spec w Hok) as (reads & Hreads & Hrun).
  pose proof (has_marker_spec (current_url (session w))) as Hmark.
  destruct (evaluate name w) as [r w'] eqn:Ev. cbn [fst snd].
  unfold evaluate in Ev. unfold bind at 1 in Ev. rewrite Hrun in Ev.
  clear Hrun Hok.
  destruct w as [file env inp lg cd sess]. cbn [session log stdin env_file
    environ chromedriver_exists] in *.
  destruct (contains (lit "dashboard") (current_url sess)
            || contains (lit "home") (current_url sess)
            || contains (lit "loggedin") (current_url sess)).
  - assert (Hyes : has_marker (current_url sess)) by now apply Hmark.
    exists (Prompt "Press Enter to keep the browser open (or close it manually)..." []
            :: success_report name :: reads).
    assert (Hnf : ~ In (failure_report name)
                       (Prompt "Press Enter to keep the browser open (or close it manually)..." []
                        :: success_report name :: reads))
      by events_not_in Hreads.
    destruct inp as [|line rest]; run_io_in Ev; injection Ev as <- <-;
      cbn [log]; (split; [reflexivity|]);
      (split; [split; [auto | intros _; events_in]|]);
      (split; [split; [intros H; now apply Hnf in H
                      | intros H; contradiction]|]);
      (split; [|intros H; contradiction]).
    + intros _ H. congruence.
    + intros _ _. reflexivity.
  - assert (Hno : ~ has_marker (current_url sess))
      by (intros H; apply Hmark in H; discriminate).
    unfold report_page_error in Ev. run_io_in Ev.
    destruct (fault sess
                (Print "Login failed for account: {}." [name] :: reads ++ lg)
                (FindByClass "error-message-class")) as [e1|];
      [|destruct (fault sess
                    (Call (FindByClass "error-message-class")
                     :: Print "Login failed for account: {}." [name]
                     :: reads ++ lg)
                    (Text "error-message-class")) as [e2|]];
      injection Ev as <- <-; cbn [log];
      match goal with
      | |- exists events, ?new = events ++ lg /\ _ =>
          match new with
          | context C [reads ++ lg] =>
              let evs := context C [reads] in exists evs
          end
      end;
      (split; [reflexivity|]);
      (split; [split; [intros H; exfalso; revert H; events_not_in Hreads
                      | intros H; contradiction]|]);
      (split; [split; [auto | intros _; unfold failure_report; events_in]|]);
      (split; [intros H; contradiction | intros _; reflexivity]).
Qed.

(** ** The login attempt: teardown and faults *)

Lemma quiet_ret {A} (a : A) : quiet (ret a).
Proof. intros w. cbn. repeat split. discriminate. Qed.

Lemma quiet_bind {A B} (m : M A) (k : A -> M B) :
  quiet m -> (forall a, quiet (k a)) -> quiet (bind m k).
Proof.
  intros Hm Hk w. unfold bind. destruct (Hm w) as (H1 & H2 & H3).
  destruct (m w) as [[a | e |] w1]; cbn [fst snd] in *.
  - destruct (Hk a w1) as (K1 & K2 & K3).
    repeat split; [congruence | congruence | assumption].
  - repeat split; [assumption | assumption | discriminate].
  - contradiction.
Qed.

Lemma quiet_print (template : string) (args : list str) :
  quiet (print template args).
Proof. intros w. cbn. repeat split. discriminate. Qed.

Lemma quiet_sleep (seconds : nat) : quiet (sleep seconds).
Proof. intros w. cbn. repeat split. discriminate. Qed.

Lemma quiet_get_world : quiet get_world.
Proof. intros w. cbn. repeat split. discriminate. Qed.

Lemma quiet_input (template : string) (args : list str) :
  quiet (input template args).
Proof.
  intros w. unfold input. destruct (stdin w); cbn; repeat split; discriminate.
Qed.

Lemma quiet_call (op : driver_op) : op <> Quit -> quiet (call op).
Proof.
  intros Hop w. rewrite call_unfold. cbn [fst snd record log session].
  repeat split.
  - destruct op; try reflexivity. contradiction.
  - destruct (fault (session w) (log w) op); discriminate.
Qed.

Lemma quiet_try_except {A} (body : M A) (handler : exn -> M A) :
  quiet body -> (forall e, quiet (handler e)) ->
  quiet (try_except body handler).
Proof.
  intros Hb Hh w. unfold try_except. destruct (Hb w) as (H1 & H2 & H3).
  destruct (body w) as [[a | e |] w1]; cbn [fst snd] in *.
  - repeat split; [assumption | assumption | discriminate].
  - destruct (Hh e w1) as (K1 & K2 & K3).
    repeat split; [congruence | congruence | assumption].
  - contradiction.
Qed.

Lemma quiet_if {A} (b : bool) (m1 m2 : M A) :
  quiet m1 -> quiet m2 -> quiet (if b then m1 else m2).
Proof. now destruct b. Qed.

Create HintDb quiet.

#[local] Hint Resolve quiet_ret quiet_print quiet_sleep quiet_get_world
  quiet_input quiet_try_except quiet_if : quiet.
#[local] Hint Extern 1 (quiet (bind _ _)) =>
  apply quiet_bind; [|intro] : quiet.
#[local] Hint Extern 1 (quiet (call _)) =>
  apply quiet_call; discriminate : quiet.

Lemma quiet_fill_and_submit (username password name : str) :
  quiet (fill_and_submit username password name).
Proof. unfold fill_and_submit. auto 30 with quiet. Qed.

Lemma quiet_evaluate (name : str) : quiet (evaluate name).
Proof.
  unfold evaluate, logged_in, url_has, report_page_error.
  repeat (first [ apply quiet_bind; [|intro]
                | apply quiet_if
                | apply quiet_try_except; [|intro]
                | apply quiet_call; discriminate
                | solve [auto with quiet] ]).
Qed.

(** The body of the statement [try] and its handler. *)
Lemma quiet_handled_body (username password name : str) :
  quiet (try_except
           (fill_and_submit username password name ;; evaluate name)
           (fun e =>
              print "An error occurred during login for account {}: {}"
                    [name; exn_text e] ;;
              ret Continue)).
Proof.
  apply quiet_try_except.
  - apply quiet_bind; [apply quiet_fill_and_submit|].
    intros _. apply quiet_evaluate.
  - intros e. auto with quiet.
Qed.

(** Once the page is loaded, the session is closed exactly once, however the
    attempt ends. *)
Lemma guarded_login_quits_once (username password name : str) (w : world) :
  quit_count (log (snd (guarded_login username password name (Some tt) w))) =
  S (quit_count (log w)).
Proof.
  unfold guarded_login, try_finally.
  destruct (quiet_handled_body username password name w) as (H1 & H2 & H3).
  destruct (try_except _ _ w) as [[c | e |] w1]; cbn [fst snd] in *;
    try contradiction;
    cbn [close_session]; rewrite call_unfold;
    destruct (fault (session w1) (log w1) Quit);
    cbn [fst snd record log quit_count]; now rewrite H1.
Qed.

(** Once the page is loaded, what the steps of the attempt raise is caught
    and reported with the name of the account, and the attempt ends as a
    failure, the loop going on; only the closing of the session can still
    raise. *)
Lemma guarded_login_catches (username password name : str) (w : world) :
  (forall h, fault (session w) h Quit = None) ->
  match (fill_and_submit username password name ;; evaluate name) w with
  | (Ok ctl, w1) =>
      guarded_login username password name (Some tt) w =
      (Ok ctl, record (Call Quit) w1)
  | (Raise e, w1) =>
      guarded_login username password name (Some tt) w =
      (Ok Continue, record (Call Quit) (record (fault_report name e) w1))
  | (OutOfFuel, _) => False
  end.
Proof.
  intros Hquit. unfold guarded_login, try_finally, try_except.
  assert (Hbody : quiet (fill_and_submit username password name ;;
                         evaluate name)).
  { apply quiet_bind; [apply quiet_fill_and_submit|].
    intros _. apply quiet_evaluate. }
  destruct (Hbody w) as (_ & Hs & Hf).
  destruct ((fill_and_submit username password name ;; evaluate name) w)
    as [[c | e |] w1]; cbn [fst snd] in *.
  - cbn [close_session]. rewrite call_unfold, Hs, Hquit. reflexivity.
  - unfold bind, print, ret. cbn [close_session]. rewrite call_unfold.
    cbn [session log record]. rewrite Hs, Hquit. reflexivity.
  - contradiction.
Qed.

(** ** The script run on a portal that cannot be reached *)

(** C1: the account [Acme Co] is chosen and the browser starts, but the login
    page cannot be loaded: [driver.get] stands before the statement [try],
    the exception leaves the attempt, and the session that was opened is
    never closed. *)
Theorem session_left_open_when_page_load_fails :
  fst (login_attempt (lit "u1") (lit "p1") (lit "Acme Co") acme_world) =
    Raise (Exception "WebDriverException") /\
  In (Call Chrome)
     (log (snd (login_attempt (lit "u1") (lit "p1") (lit "Acme Co")
                              acme_world))) /\
  quit_count
    (log (snd (login_attempt (lit "u1") (lit "p1") (lit "Acme Co")
                             acme_world))) = 0.
Proof.
  split; [|split].
  - vm_compute. reflexivity.
  - vm_compute. right. left. reflexivity.
  - vm_compute. reflexivity.
Qed.

(** C2: in the same run from the main menu the exception of [driver.get] is
    not caught: no report of it is printed, it leaves [perform_gst_login] and
    the main loop, and the program ends with the operator's next line, the
    choice of the exit, unread. *)
Theorem page_load_fault_ends_program
    (load_dotenv : str -> bool -> dict -> dict) :
  fst (main load_dotenv acme_world) = Raise (Exception "WebDriverException") /\
  ~ In (fault_report (lit "Acme Co") (Exception "WebDriverException"))
       (log (snd (main load_dotenv acme_world))) /\
  stdin (snd (main load_dotenv acme_world)) = [lit "3"].
Proof.
  split; [|split].
  - vm_compute. reflexivity.
  - vm_compute. intros H.
    repeat (destruct H as [H | H]; [discriminate H|]). exact H.
  - vm_compute. reflexivity.
Qed.

(** ** The script run on a file whose last line is not terminated *)

(** C8: the file holds the one line [FOO=1] without a newline and the key
    [BAR] is updated: the new text is put after the last character, so that
    the file still has one line, which is not the line it had, and no line
    has the key [BAR]. *)
Theorem update_joins_unterminated_line :
  readlines (lit "FOO=1") = [lit "FOO=1"] /\
  readlines (update_env_file (lit "BAR") (lit "v") (lit "FOO=1")) =
    [lit "FOO=1BAR=" ++ dq :: lit "v" ++ [dq; nl]] /\
  ~ In (lit "FOO=1")
       (readlines (update_env_file (lit "BAR") (lit "v") (lit "FOO=1"))) /\
  file_value (lit "BAR")
             (update_env_file (lit "BAR") (lit "v") (lit "FOO=1")) = None.
Proof.
  split; [|split; [|split]].
  - vm_compute. reflexivity.
  - vm_compute. reflexivity.
  - vm_compute. intros [H | []]. discriminate H.
  - vm_compute. reflexivity.
Qed.

(** C5: the store holds the account [A] with index 1 on a line without a
    newline and the new account [B] is added: [nextIndex] is 2 and the add
    goes through, but the line of the new name is joined to the line of [A];
    the next scan knows neither the name [B] nor the index 2, and no longer
    the name [A]. *)
Theorem add_joins_unterminated_line
    (load_dotenv : str -> bool -> dict -> dict) :
  next_index unterminated_store = 2 /\
  resolve (fst (get_account_mapping unterminated_store)) (lit "A") =
    Some (lit "1") /\
  resolve (fst (get_account_mapping unterminated_store)) (lit "B") = None /\
  fst (add_new_account load_dotenv
         (store_world unterminated_store [lit "B"; lit "u"; lit "p"])) =
    Ok tt /\
  resolve
    (fst (get_account_mapping
            (env_file
               (snd (add_new_account load_dotenv
                       (store_world unterminated_store
                                    [lit "B"; lit "u"; lit "p"]))))))
    (lit "B") = None /\
  map snd
    (fst (get_account_mapping
            (env_file
               (snd (add_new_account load_dotenv
                       (store_world unterminated_store
                                    [lit "B"; lit "u"; lit "p"])))))) =
    [lit "1"] /\
  resolve
    (fst (get_account_mapping
            (env_file
               (snd (add_new_account load_dotenv
                       (store_world unterminated_store
                                    [lit "B"; lit "u"; lit "p"]))))))
    (lit "A") = None.
Proof.
  repeat split; vm_compute; reflexivity.
Qed.

(** C6: the store holds the account [Beta] with a password and no username,
    its last line without a newline; the operator gives a new username and a
    blank password.  The username is joined to the line of the password: the
    value stored for the password is no longer what it was, and the key of
    the username has no value. *)
Theorem update_joins_password_line
    (load_dotenv : str -> bool -> dict -> dict) :
  file_value (lit "GST_PSSWD_2") unterminated_beta_store =
    Some (dq :: lit "p" ++ [dq]) /\
  fst (update_existing_account load_dotenv
         (store_world unterminated_beta_store
                      [lit "Beta"; lit "u2"; lit ""])) = Ok tt /\
  file_value (lit "GST_PSSWD_2")
    (env_file
       (snd (update_existing_account load_dotenv
               (store_world unterminated_beta_store
                            [lit "Beta"; lit "u2"; lit ""])))) =
    Some (dq :: lit "p" ++ dq :: lit "GST_UserID_2=" ++ dq :: lit "u2" ++ [dq]) /\
  file_value (lit "GST_UserID_2")
    (env_file
       (snd (update_existing_account load_dotenv
               (store_world unterminated_beta_store
                            [lit "Beta"; lit "u2"; lit ""])))) = None.
Proof.
  repeat split; vm_compute; reflexivity.
Qed.

(** ** What the credential functions write *)

Ltac run_store :=
  cbv beta iota zeta delta
    [bind ret raise print input sleep getenv getenv_or get_world
     read_account_mapping update_env_variable reload_dotenv add_events
     record set_stdin set_env_file set_environ
     stdin env_file environ log chromedriver_exists session];
  cbn [fst snd negb].

Ltac run_store_in H :=
  cbv beta iota zeta delta
    [bind ret raise print input sleep getenv getenv_or get_world
     read_account_mapping update_env_variable reload_dotenv add_events
     record set_stdin set_env_file set_environ
     stdin env_file environ log chromedriver_exists session] in H;
  cbn [fst snd negb] in H.


Lemma print_original_names_ok (mapping : dict) (keys : list str) (w : world) :
  (forall k, In k keys -> dict_get k mapping <> None) ->
  exists events,
    print_original_names mapping keys w = (Ok tt, add_events events w).
Proof.
  revert w. induction keys as [|k keys IH]; intros w Hkeys;
    cbn [print_original_names].
  - exists []. destruct w; reflexivity.
  - destruct (dict_get k mapping) as [index|] eqn:E;
      [|exfalso; apply (Hkeys k); [now left | assumption]].
    unfold bind at 1. unfold getenv_or. unfold bind at 1. unfold print.
    edestruct IH as [events ->]; [intros k' Hk'; apply Hkeys; now right|].
    eexists (events ++ [_]). unfold add_events, record. cbn.
    rewrite <- app_assoc. reflexivity.
Qed.

Lemma insert_str_In (x k : str) (l : list str) :
  In k (insert_str x l) -> k = x \/ In k l.
Proof.
  induction l as [|y l IH]; simpl.
  - intros [<- | []]. now left.
  - destruct (Str.leb x y); simpl.
    + intros [<- | H]; auto.
    + intros [<- | H]; auto. destruct (IH H); auto.
Qed.

Lemma sorted_str_In (k : str) (l : list str) : In k (sorted_str l) -> In k l.
Proof.
  unfold sorted_str. induction l as [|x l IH]; simpl; [auto|].
  intros H. apply insert_str_In in H. destruct H as [-> | H]; auto.
Qed.

Lemma dict_get_key (k : str) (d : dict) :
  In k (map fst d) -> dict_get k d <> None.
Proof.
  induction d as [|[k' v] d IH]; simpl; [intros []|].
  intros H. destruct (Str.eqb k k') eqn:E; [discriminate|].
  destruct H as [<- | H]; [|now apply IH].
  now rewrite str_eqb_refl in E.
Qed.


(** ** A new account on a file whose lines are terminated *)

Lemma is_digit_spec (c : ascii) : is_digit c = true <-> 48 <= code c <= 57.
Proof. unfold is_digit. rewrite andb_true_iff, !Nat.leb_le. reflexivity. Qed.

Lemma digit_char (d : nat) :
  d < 10 ->
  is_digit (ascii_of_nat (48 + d)) = true /\
  digit_val (ascii_of_nat (48 + d)) = d.
Proof.
  intros H. unfold digit_val. rewrite is_digit_spec.
  rewrite code_ascii_of_nat by lia. lia.
Qed.

(** [str(n)] is a string of one digit or more that [int] reads as [n]. *)
Lemma digits_spec (fuel n : nat) :
  n < fuel ->
  exists ds,
    (forall acc, digits fuel n acc = ds ++ acc) /\
    ds <> [] /\
    forallb is_digit ds = true /\
    int ds = n.
Proof.
  revert n. induction fuel as [|fuel IH]; intros n Hn; [lia|].
  cbn [digits]. destruct (n <? 10) eqn:E.
  - apply Nat.ltb_lt in E. exists [ascii_of_nat (48 + n mod 10)].
    rewrite Nat.mod_small by assumption.
    destruct (digit_char E) as [Hd Hv].
    split; [reflexivity | split; [discriminate | split]].
    + cbn [forallb]. now rewrite Hd.
    + unfold int. cbn [fold_left]. rewrite Hv. lia.
  - apply Nat.ltb_ge in E.
    assert (Hdiv : n / 10 < fuel).
    { pose proof (Nat.div_lt n 10). lia. }
    destruct (IH _ Hdiv) as (ds & Hds & Hne & Hall & Hint).
    assert (Hmod : n mod 10 < 10) by (apply Nat.mod_upper_bound; lia).
    destruct (digit_char Hmod) as [Hd Hv].
    exists (ds ++ [ascii_of_nat (48 + n mod 10)]).
    split; [|split; [|split]].
    + intros acc. rewrite Hds, <- app_assoc. reflexivity.
    + destruct ds; discriminate.
    + rewrite forallb_app, Hall. cbn [forallb]. now rewrite Hd.
    + unfold int in *. rewrite fold_left_app. cbn [fold_left].
      rewrite Hint, Hv.
      pose proof (Nat.div_mod_eq n 10). lia.
Qed.

Lemma of_nat_spec (n : nat) :
  of_nat n <> [] /\ forallb is_digit (of_nat n) = true /\ int (of_nat n) = n.
Proof.
  unfold of_nat.
  destruct (@digits_spec (S n) n) as (ds & Hds & Hne & Hall & Hint); [lia|].
  rewrite Hds, app_nil_r. auto.
Qed.




Lemma strip_with_single (p : ascii -> bool) (c : ascii) :
  p c = false -> strip_with p [c] = [c].
Proof. intros Hc. unfold strip_with. simpl. rewrite Hc. simpl. now rewrite Hc. Qed.















Lemma dict_get_set_same (k v : str) (d : dict) :
  dict_get k (dict_set k v d) = Some v.
Proof.
  induction d as [|[k' v'] d IH]; simpl.
  - now rewrite str_eqb_refl.
  - destruct (Str.eqb k k') eqn:E; simpl; now rewrite E.
Qed.







(** ** An update on a file whose lines are terminated *)







Lemma dict_get_In (k v : str) (d : dict) :
  dict_get k d = Some v -> exists k', In (k', v) d.
Proof.
  induction d as [|[k' v'] d IH]; simpl; [discriminate|].
  destruct (Str.eqb k k').
  - intros H. injection H as ->. exists k'. now left.
  - intros H. destruct (IH H) as [k0 H0]. exists k0. now right.
Qed.



(** ** The loops end *)



































(** ** The theorems at concrete inputs *)

Lemma no_match_not_well_formed (line : str) :
  match_trade_name (strip line) = None ->
  forall i v, ~ well_formed_trade_line line i v.
Proof.
  intros H i v Hwf. apply well_formed_iff_match in Hwf.
  destruct Hwf as (ds & Hm & _). congruence.
Qed.

(** The store with the indices 1 and 3, and two malformed lines between and
    after them, has the next index 4. *)
Lemma next_index_is_max_plus_one_witness : next_index store_1_3 = 4.
Proof.
  apply (next_index_is_max_plus_one store_1_3).
  intros i. split.
  - intros (line & v & Hin & Hwf). vm_compute in Hin.
    destruct Hin as [<- | [<- | [<- | [<- | []]]]].
    + apply well_formed_iff_match in Hwf. destruct Hwf as (ds & Hm & ->).
      vm_compute in Hm. injection Hm as <- _. left. reflexivity.
    + exfalso. revert Hwf. now apply no_match_not_well_formed.
    + apply well_formed_iff_match in Hwf. destruct Hwf as (ds & Hm & ->).
      vm_compute in Hm. injection Hm as <- _. right. reflexivity.
    + exfalso. revert Hwf. now apply no_match_not_well_formed.
  - intros [-> | ->].
    + exists (env_entry (lit "Trade_Name_1") (lit "Acme Co")),
             (dq :: lit "Acme Co" ++ [dq]).
      split; [vm_compute; auto|].
      apply well_formed_iff_match. exists (lit "1"). now vm_compute.
    + exists (env_entry (lit "Trade_Name_3") (lit "Beta")),
             (dq :: lit "Beta" ++ [dq]).
      split; [vm_compute; auto|].
      apply well_formed_iff_match. exists (lit "3"). now vm_compute.
Defined.

(** The two malformed lines of that store change nothing in its scan. *)
Lemma malformed_lines_ignored_witness :
  get_account_mapping store_1_3 =
  account_mapping_of_lines
    ([env_entry (lit "Trade_Name_1") (lit "Acme Co")] ++
     [env_entry (lit "Trade_Name_3") (lit "Beta");
      lit "Trade_Name_abc=x" ++ [nl]]).
Proof.
  apply (@malformed_lines_ignored store_1_3
           [env_entry (lit "Trade_Name_1") (lit "Acme Co")]
           (lit "Trade_Name_=x" ++ [nl])
           [env_entry (lit "Trade_Name_3") (lit "Beta");
            lit "Trade_Name_abc=x" ++ [nl]]).
  - vm_compute. reflexivity.
  - apply no_match_not_well_formed. vm_compute. reflexivity.
Defined.

(** [ acme co ] resolves as [Acme Co] does. *)
Lemma resolve_ignores_case_and_spaces_witness :
  resolve (fst (get_account_mapping store_1_3)) (lit " acme co ") =
  resolve (fst (get_account_mapping store_1_3)) (lit "Acme Co") /\
  normalize (normalize (strip (lit " acme co "))) =
  normalize (strip (lit " acme co ")).
Proof.
  apply (@resolve_ignores_case_and_spaces
           (fst (get_account_mapping store_1_3))
           (lit "Acme Co") (lit " acme co ")).
  exists [], (lit "Acme Co"), [], [sp], (lit "acme co"), [sp].
  repeat (split; [reflexivity|]).
  unfold lit. simpl.
  apply same_char; [right; right; split; reflexivity|].
  do 3 (apply same_char; [now left|]).
  apply same_char; [now left|].
  apply same_char; [right; right; split; reflexivity|].
  apply same_char; [now left|].
  apply same_nil.
Defined.

(** A session that ends on the dashboard is reported as a success. *)
Lemma evaluate_classifies_witness :
  exists events,
    log (snd (evaluate (lit "Acme Co") dashboard_world)) =
      events ++ log dashboard_world /\
    (In (success_report (lit "Acme Co")) events <->
     has_marker (current_url (session dashboard_world))) /\
    (In (failure_report (lit "Acme Co")) events <->
     ~ has_marker (current_url (session dashboard_world))) /\
    (has_marker (current_url (session dashboard_world)) ->
     stdin dashboard_world <> [] ->
     fst (evaluate (lit "Acme Co") dashboard_world) = Ok Break) /\
    (~ has_marker (current_url (session dashboard_world)) ->
     fst (evaluate (lit "Acme Co") dashboard_world) = Ok Continue).
Proof.
  apply (evaluate_classifies (lit "Acme Co") dashboard_world).
  intros h. reflexivity.
Defined.

(** A blank trade name: nothing is written. *)
Lemma add_rejected_writes_nothing_witness :
  fst (add_new_account (fun _ _ e => e)
         (store_world store_1_3 [lit "   "])) = Ok tt /\
  env_file (snd (add_new_account (fun _ _ e => e)
                   (store_world store_1_3 [lit "   "]))) =
  env_file (store_world store_1_3 [lit "   "]).
Proof.
  apply (@add_rejected_writes_nothing (fun _ _ e => e)
           (store_world store_1_3 [lit "   "])).
  apply rejected_blank_name. vm_compute. reflexivity.
Defined.

(** * Further properties of the code *)

(** ** [update_env_variable] *)

















(** ** [get_account_mapping] *)

Lemma dict_set_In (k v k0 v0 : str) (d : dict) :
  In (k, v) (dict_set k0 v0 d) -> (k = k0 /\ v = v0) \/ In (k, v) d.
Proof.
  induction d as [|[k' v'] d IH]; simpl.
  - intros [H | []]. injection H as <- <-. now left.
  - destruct (Str.eqb k0 k') eqn:E.
    + apply str_eqb_eq in E. subst k'. intros [H | H].
      * injection H as <- <-. now left.
      * right. now right.
    + intros [H | H].
      * right. now left.
      * destruct (IH H) as [Hl | Hr]; [now left | right; now right].
Qed.

Lemma dict_set_keys_NoDup (k v : str) (d : dict) :
  NoDup (map fst d) -> NoDup (map fst (dict_set k v d)).
Proof.
  induction d as [|[k' v'] d IH]; simpl; intros H.
  - constructor; [intros [] | constructor].
  - inversion H as [|? ? Hnotin Hd]; subst.
    destruct (Str.eqb k k') eqn:E; simpl.
    + constructor; assumption.
    + constructor; [|now apply IH].
      intros Hin. apply in_map_iff in Hin.
      destruct Hin as ([k1 v1] & Hk1 & Hin). simpl in Hk1. subst k1.
      apply dict_set_In in Hin. destruct Hin as [[-> _] | Hin].
      * rewrite str_eqb_refl in E. discriminate.
      * apply Hnotin. apply in_map_iff. now exists (k', v1).
Qed.

Lemma dict_get_set_other (k k' v : str) (d : dict) :
  k <> k' -> dict_get k (dict_set k' v d) = dict_get k d.
Proof.
  intros Hne. induction d as [|[k0 v0] d IH]; simpl.
  - apply str_eqb_neq in Hne. now rewrite Hne.
  - destruct (Str.eqb k' k0) eqn:E; simpl.
    + apply str_eqb_eq in E. subst k0.
      apply str_eqb_neq in Hne. now rewrite Hne.
    + destruct (Str.eqb k k0); [reflexivity | assumption].
Qed.

(** What holds of the entries a scan starts with, and of the entry every
    matching line makes, holds of the entries the scan ends with. *)
Lemma scan_entries (Q : str -> str -> Prop) (lines : list str)
    (st : dict * nat) :
  (forall k idx, In (k, idx) (fst st) -> Q k idx) ->
  (forall line ds v,
      In line lines -> match_trade_name (strip line) = Some (ds, v) ->
      Q (stored_key v) (of_nat (int ds))) ->
  forall k idx, In (k, idx) (fst (fold_left scan_line lines st)) -> Q k idx.
Proof.
  revert st. induction lines as [|l ls IH]; intros st Hst Hlines;
    [exact Hst|].
  cbn [fold_left]. apply IH.
  - destruct st as [m h]. intros k idx.
    destruct (match_trade_name (strip l)) as [[ds v]|] eqn:E.
    + rewrite (scan_line_match m h l E). cbn [fst]. intros Hin.
      apply dict_set_In in Hin. destruct Hin as [[-> ->] | Hin].
      * apply (Hlines l ds v); [now left | assumption].
      * now apply Hst.
    + rewrite (scan_line_no_match (m, h) l E). apply Hst.
  - intros line ds v Hin. apply Hlines. now right.
Qed.

Lemma scan_keys_NoDup (lines : list str) (st : dict * nat) :
  NoDup (map fst (fst st)) ->
  NoDup (map fst (fst (fold_left scan_line lines st))).
Proof.
  revert st. induction lines as [|l ls IH]; intros [m h] H; [exact H|].
  cbn [fold_left]. apply IH.
  destruct (match_trade_name (strip l)) as [[ds v]|] eqn:E.
  - rewrite (scan_line_match m h l E). cbn [fst].
    now apply dict_set_keys_NoDup.
  - now rewrite (scan_line_no_match (m, h) l E).
Qed.

Lemma mapping_unfold (content : str) :
  fst (get_account_mapping content) = fst (scan_lines (readlines content)).
Proof.
  unfold get_account_mapping, account_mapping_of_lines.
  now destruct (scan_lines (readlines content)).
Qed.

Lemma stored_key_normalized (v : str) : normalize (stored_key v) = stored_key v.
Proof. unfold stored_key. apply (normalize_idempotent (strip_quotes (strip v))). Qed.

(** Every entry of the mapping is made by a well-formed trade-name line of
    the file. *)
Lemma mapping_entry_origin (content k idx : str) :
  In (k, idx) (fst (get_account_mapping content)) ->
  exists line i v,
    In line (readlines content) /\
    well_formed_trade_line line i v /\
    k = stored_key v /\ idx = of_nat i /\ i < next_index content.
Proof.
  rewrite mapping_unfold. unfold scan_lines.
  apply (@scan_entries
           (fun k idx =>
              exists line i v,
                In line (readlines content) /\
                well_formed_trade_line line i v /\
                k = stored_key v /\ idx = of_nat i /\
                i < next_index content)).
  - intros ? ? [].
  - intros line ds v Hin Hm. exists line, (int ds), v.
    split; [assumption | split; [|split; [reflexivity | split;
      [reflexivity|]]]].
    + apply well_formed_iff_match. now exists ds.
    + pose proof (fold_scan_highest (readlines content) [] 0) as Hscan.
      change (fold_left scan_line (readlines content) ([], 0))
        with (scan_lines (readlines content)) in Hscan.
      destruct Hscan as (_ & Hub & _). specialize (Hub _ _ _ Hin Hm).
      rewrite next_index_unfold. lia.
Qed.

(** X6: the keys of the account mapping are pairwise different, and each is
    in normal form: normalising it (capital letters, no space) gives the key
    itself. *)
Theorem mapping_keys_normal_and_unique (content : str) :
  NoDup (map fst (fst (get_account_mapping content))) /\
  Forall (fun entry => normalize (fst entry) = fst entry)
         (fst (get_account_mapping content)).
Proof.
  rewrite mapping_unfold. split.
  - unfold scan_lines. apply scan_keys_NoDup. constructor.
  - apply Forall_forall. intros [k idx] Hin. cbn [fst].
    revert k idx Hin. unfold scan_lines.
    apply (@scan_entries (fun k _ => normalize k = k)).
    + intros ? ? [].
    + intros line ds v _ _. apply stored_key_normalized.
Qed.

(** X7: the index [nextIndex] names no account of the store: every index
    to which an input resolves is, read as a number, below [nextIndex]. *)
Theorem next_index_is_fresh (content input : str) :
  match resolve (fst (get_account_mapping content)) input with
  | Some index => int index < next_index content
  | None => True
  end.
Proof.
  unfold resolve.
  destruct (dict_get (normalize (strip input))
                     (fst (get_account_mapping content))) as [index|] eqn:E;
    [|exact I].
  apply dict_get_In in E. destruct E as [k H].
  apply mapping_entry_origin in H.
  destruct H as (line & i & v & _ & _ & _ & -> & Hlt).
  destruct (of_nat_spec i) as (_ & _ & Hi). now rewrite Hi.
Qed.

(** X8: every entry of the account mapping comes from a well-formed
    trade-name line of the file: its key is the normal form of the value of
    that line, and its index is the decimal writing, without leading zeros,
    of the index of that line, which is below [nextIndex]. *)
Theorem mapping_entries_come_from_lines (content : str) :
  Forall (fun entry =>
            exists line i v,
              In line (readlines content) /\
              well_formed_trade_line line i v /\
              fst entry = stored_key v /\
              snd entry = of_nat i /\ int (snd entry) = i /\
              i < next_index content)
         (fst (get_account_mapping content)).
Proof.
  apply Forall_forall. intros [k idx] Hin. cbn [fst snd].
  apply mapping_entry_origin in Hin.
  destruct Hin as (line & i & v & H1 & H2 & H3 & H4 & H5).
  exists line, i, v. repeat (split; [assumption|]). split; [|assumption].
  subst idx. apply of_nat_spec.
Qed.

Lemma scan_keeps_other_keys (k : str) (lines : list str) (st : dict * nat) :
  (forall line ds v,
      In line lines -> match_trade_name (strip line) = Some (ds, v) ->
      stored_key v <> k) ->
  dict_get k (fst (fold_left scan_line lines st)) = dict_get k (fst st).
Proof.
  revert st. induction lines as [|l ls IH]; intros [m h] H; [reflexivity|].
  cbn [fold_left]. rewrite IH by (intros; eapply H; eauto; now right).
  destruct (match_trade_name (strip l)) as [[ds v]|] eqn:E.
  - rewrite (scan_line_match m h l E). cbn [fst].
    apply dict_get_set_other. intros Heq. symmetry in Heq. revert Heq.
    apply (H l ds v); [now left | assumption].
  - now rewrite (scan_line_no_match (m, h) l E).
Qed.

(** X9: when several well-formed lines carry one name, the last of them
    decides: a name resolves to the index of the last line of the file that
    carries it. *)
Theorem last_line_decides_index (content : str) (before : list str)
    (line : str) (after : list str) (i : nat) (v : str) :
  readlines content = before ++ line :: after ->
  well_formed_trade_line line i v ->
  (forall l j u,
      In l after -> well_formed_trade_line l j u ->
      stored_key u <> stored_key v) ->
  dict_get (stored_key v) (fst (get_account_mapping content)) =
  Some (of_nat i).
Proof.
  intros Hlines Hwf Hafter. rewrite mapping_unfold, Hlines.
  unfold scan_lines. rewrite fold_left_app. cbn [fold_left].
  apply well_formed_iff_match in Hwf. destruct Hwf as (ds & Hm & ->).
  rewrite scan_keeps_other_keys.
  - destruct (fold_left scan_line before ([], 0)) as [m h].
    rewrite (scan_line_match m h line Hm). cbn [fst].
    apply dict_get_set_same.
  - intros l ds' u Hin Hmu. apply (Hafter l (int ds') u Hin).
    apply well_formed_iff_match. now exists ds'.
Qed.

Lemma last_line_decides_index_witness :
  dict_get (stored_key (quoted (lit "ACMECO")))
           (fst (get_account_mapping store_twice)) = Some (of_nat 5).
Proof.
  apply (@last_line_decides_index store_twice
           [env_entry (lit "Trade_Name_1") (lit "Acme Co")]
           (env_entry (lit "Trade_Name_5") (lit "ACMECO")) [] 5
           (quoted (lit "ACMECO"))).
  - vm_compute. reflexivity.
  - apply well_formed_iff_match. exists (lit "5"). now vm_compute.
  - intros l j u [].
Defined.

(** ** [add_new_account] *)


(** X10: when the name is in the store and the operator does not answer
    [yes] to the question of the overwrite, [add_new_account] returns with
    nothing written; it reads neither a username nor a password. *)
Theorem add_declined_writes_nothing
    (load_dotenv : str -> bool -> dict -> dict) (w : world)
    (name answer index : str) (rest : list str) :
  stdin w = name :: answer :: rest ->
  strip name <> [] ->
  resolve (fst (get_account_mapping (env_file w))) name = Some index ->
  lower (strip answer) <> lit "yes" ->
  fst (add_new_account load_dotenv w) = Ok tt /\
  env_file (snd (add_new_account load_dotenv w)) = env_file w /\
  environ (snd (add_new_account load_dotenv w)) = environ w /\
  stdin (snd (add_new_account load_dotenv w)) = rest.
Proof.
  destruct w as [file env inp lg cd sess]. cbn [env_file stdin environ].
  intros -> Hname Hold Hno. unfold resolve in Hold.
  apply is_empty_false in Hname. apply str_eqb_neq in Hno.
  unfold add_new_account.
  destruct (get_account_mapping file) as [mapping next] eqn:Escan.
  cbn [fst] in Hold.
  run_store. rewrite Escan. run_store. rewrite Hname, Hold. run_store.
  rewrite Hno. run_store. repeat split; reflexivity.
Qed.

Lemma add_declined_writes_nothing_witness :
  fst (add_new_account (fun _ _ e => e)
         (store_world store_1_3 [lit "acme co"; lit "no"; lit "x"])) = Ok tt /\
  env_file (snd (add_new_account (fun _ _ e => e)
                   (store_world store_1_3 [lit "acme co"; lit "no"; lit "x"]))) =
  env_file (store_world store_1_3 [lit "acme co"; lit "no"; lit "x"]) /\
  environ (snd (add_new_account (fun _ _ e => e)
                  (store_world store_1_3 [lit "acme co"; lit "no"; lit "x"]))) =
  environ (store_world store_1_3 [lit "acme co"; lit "no"; lit "x"]) /\
  stdin (snd (add_new_account (fun _ _ e => e)
                (store_world store_1_3 [lit "acme co"; lit "no"; lit "x"]))) =
  [lit "x"].
Proof.
  apply (@add_declined_writes_nothing (fun _ _ e => e)
           (store_world store_1_3 [lit "acme co"; lit "no"; lit "x"])
           (lit "acme co") (lit "no") (lit "1") [lit "x"]).
  - reflexivity.
  - vm_compute. discriminate.
  - vm_compute. reflexivity.
  - vm_compute. discriminate.
Defined.
















(** ** [update_existing_account] *)

(** X16: when the name that the operator types is not in the store,
    [update_existing_account] returns with nothing written; on a store
    without accounts it does so before it asks anything. *)
Theorem update_unknown_account_writes_nothing
    (load_dotenv : str -> bool -> dict -> dict) (w : world)
    (name : str) (rest : list str) :
  stdin w = name :: rest ->
  resolve (fst (get_account_mapping (env_file w))) name = None ->
  fst (update_existing_account load_dotenv w) = Ok tt /\
  env_file (snd (update_existing_account load_dotenv w)) = env_file w /\
  environ (snd (update_existing_account load_dotenv w)) = environ w /\
  stdin (snd (update_existing_account load_dotenv w)) =
  if is_empty_list (fst (get_account_mapping (env_file w)))
  then name :: rest else rest.
Proof.
  destruct w as [file env inp lg cd sess]. cbn [env_file stdin environ].
  intros -> Hget. unfold resolve in Hget.
  destruct (update_existing_account load_dotenv _) as [r w'] eqn:Erun.
  cbn [fst snd]. unfold update_existing_account in Erun.
  destruct (get_account_mapping file) as [mapping next] eqn:Escan.
  cbn [fst] in Hget |- *.
  unfold bind at 1 in Erun. unfold print at 1 in Erun.
  unfold bind at 1 in Erun. unfold read_account_mapping at 1 in Erun.
  cbn [record env_file] in Erun. rewrite Escan in Erun. cbn [fst] in Erun.
  destruct (sorted_str (map fst mapping)) as [|k ks] eqn:Ekeys.
  - assert (Hm : mapping = []).
    { destruct mapping as [|[k v] mapping]; [reflexivity|]. exfalso.
      assert (H : In k (sorted_str (map fst ((k, v) :: mapping)))).
      { unfold sorted_str. simpl.
        generalize (fold_right insert_str [] (map fst mapping)).
        intros l. induction l as [|y l IH]; simpl; [now left|].
        destruct (Str.leb k y); simpl; auto. }
      rewrite Ekeys in H. destruct H. }
    subst mapping. cbn [is_empty_list] in *. run_store_in Erun.
    injection Erun as <- <-. repeat split; reflexivity.
  - assert (Hm : is_empty_list mapping = false).
    { destruct mapping; [discriminate Ekeys | reflexivity]. }
    rewrite Hm. cbn [is_empty_list] in Erun. unfold bind at 1 in Erun.
    unfold print at 1 in Erun. unfold bind at 1 in Erun.
    edestruct (@print_original_names_ok mapping (k :: ks)) as [events Hshow].
    { intros k' Hk'. rewrite <- Ekeys in Hk'. apply sorted_str_In in Hk'.
      now apply dict_get_key. }
    rewrite Hshow in Erun. clear Hshow.
    run_store_in Erun. rewrite Hget in Erun. run_store_in Erun.
    injection Erun as <- <-. repeat split; reflexivity.
Qed.

Lemma update_unknown_account_writes_nothing_witness :
  fst (update_existing_account (fun _ _ e => e)
         (store_world store_1_3 [lit "Delta"; lit "u"])) = Ok tt /\
  env_file (snd (update_existing_account (fun _ _ e => e)
                   (store_world store_1_3 [lit "Delta"; lit "u"]))) =
  env_file (store_world store_1_3 [lit "Delta"; lit "u"]) /\
  environ (snd (update_existing_account (fun _ _ e => e)
                  (store_world store_1_3 [lit "Delta"; lit "u"]))) =
  environ (store_world store_1_3 [lit "Delta"; lit "u"]) /\
  stdin (snd (update_existing_account (fun _ _ e => e)
                (store_world store_1_3 [lit "Delta"; lit "u"]))) =
  if is_empty_list
       (fst (get_account_mapping
               (env_file (store_world store_1_3 [lit "Delta"; lit "u"]))))
  then [lit "Delta"; lit "u"] else [lit "u"].
Proof.
  apply (@update_unknown_account_writes_nothing (fun _ _ e => e)
           (store_world store_1_3 [lit "Delta"; lit "u"])
           (lit "Delta") [lit "u"]).
  - reflexivity.
  - vm_compute. reflexivity.
Defined.










(** ** [list_all_accounts] *)

Lemma print_accounts_ok (items : list (str * str)) (w : world) :
  exists events, print_accounts items w = (Ok tt, add_events events w).
Proof.
  revert w. induction items as [|[k idx] items IH]; intros w;
    cbn [print_accounts].
  - exists []. destruct w; reflexivity.
  - run_store.
    edestruct IH as [events ->].
    eexists (events ++ [_; _; _; _]). unfold add_events. cbn.
    rewrite <- app_assoc. reflexivity.
Qed.


Lemma insert_by_index_perm (x : str * str) (l : list (str * str)) :
  Permutation (x :: l) (insert_by_index x l).
Proof.
  induction l as [|y l IH]; simpl; [apply Permutation_refl|].
  destruct (int (snd x) <=? int (snd y)); [apply Permutation_refl|].
  eapply Permutation_trans; [apply perm_swap|]. now apply perm_skip.
Qed.

Lemma insert_by_index_sorted (x : str * str) (l : list (str * str)) :
  StronglySorted (fun a b => index_of a <= index_of b) l ->
  StronglySorted (fun a b => index_of a <= index_of b) (insert_by_index x l).
Proof.
  unfold index_of. induction 1 as [|y l Hl IH Hy]; simpl.
  - constructor; constructor.
  - destruct (int (snd x) <=? int (snd y)) eqn:E.
    + apply Nat.leb_le in E. constructor.
      * now constructor.
      * constructor; [assumption|].
        rewrite Forall_forall in *. intros z Hz. specialize (Hy z Hz). lia.
    + apply Nat.leb_gt in E. constructor; [assumption|].
      apply Forall_forall. intros z Hz.
      apply (Permutation_in _ (Permutation_sym (insert_by_index_perm x l)))
        in Hz.
      destruct Hz as [<- | Hz]; [lia|].
      rewrite Forall_forall in Hy. now apply Hy.
Qed.

Lemma insert_by_index_stable (n : nat) (x : str * str) (l : list (str * str)) :
  StronglySorted (fun a b => index_of a <= index_of b) l ->
  filter (fun item => index_of item =? n) (insert_by_index x l) =
  filter (fun item => index_of item =? n) (x :: l).
Proof.
  unfold index_of. induction 1 as [|y l Hl IH Hy]; [reflexivity|].
  cbn [insert_by_index].
  destruct (int (snd x) <=? int (snd y)) eqn:E; [reflexivity|].
  apply Nat.leb_gt in E. cbn [filter] in *. rewrite IH.
  destruct (int (snd x) =? n) eqn:Ex; [|reflexivity].
  apply Nat.eqb_eq in Ex.
  assert (Ey : (int (snd y) =? n) = false) by (apply Nat.eqb_neq; lia).
  now rewrite Ey.
Qed.

Lemma sorted_by_index_sorted (items : list (str * str)) :
  StronglySorted (fun a b => index_of a <= index_of b) (sorted_by_index items).
Proof.
  unfold sorted_by_index. induction items as [|x items IH]; simpl.
  - constructor.
  - now apply insert_by_index_sorted.
Qed.

(** X22: the order in which the accounts are listed and offered for the
    login: every entry of the mapping once, by ascending index, entries of
    one index in the order they have in the mapping. *)
Theorem accounts_are_listed_by_index (items : list (str * str)) :
  Permutation items (sorted_by_index items) /\
  StronglySorted (fun a b => index_of a <= index_of b)
                 (sorted_by_index items) /\
  forall n,
    filter (fun item => index_of item =? n) (sorted_by_index items) =
    filter (fun item => index_of item =? n) items.
Proof.
  split; [|split].
  - unfold sorted_by_index. induction items as [|x items IH]; simpl.
    + constructor.
    + eapply Permutation_trans; [|apply insert_by_index_perm].
      now apply perm_skip.
  - apply sorted_by_index_sorted.
  - intros n. induction items as [|x items IH]; [reflexivity|].
    change (sorted_by_index (x :: items))
      with (insert_by_index x (sorted_by_index items)).
    rewrite insert_by_index_stable by apply sorted_by_index_sorted.
    cbn [filter]. now rewrite IH.
Qed.

Lemma alike_values (w1 w2 : world) (index : str) :
  alike w1 w2 ->
  (forall default,
      value_or (environ w1) (TRADE_NAME_PREFIX ++ index) default =
      value_or (environ w2) (TRADE_NAME_PREFIX ++ index) default) /\
  (forall default,
      value_or (environ w1) (USER_ID_PREFIX ++ index) default =
      value_or (environ w2) (USER_ID_PREFIX ++ index) default) /\
  is_empty (value_or (environ w1) (PASSWORD_PREFIX ++ index) (lit "N/A")) =
    is_empty (value_or (environ w2) (PASSWORD_PREFIX ++ index) (lit "N/A")).
Proof.
  intros [_ He]. unfold value_or. split; [|split].
  - intros default. destruct (He (TRADE_NAME_PREFIX ++ index)) as [H _].
    now rewrite H by reflexivity.
  - intros default. destruct (He (USER_ID_PREFIX ++ index)) as [H _].
    now rewrite H by reflexivity.
  - apply He.
Qed.

(** The listing of two worlds that are alike is the same. *)
Lemma print_accounts_alike (items : list (str * str)) (w1 w2 : world) :
  alike w1 w2 ->
  alike (snd (print_accounts items w1)) (snd (print_accounts items w2)).
Proof.
  revert w1 w2. induction items as [|[k idx] items IH]; intros w1 w2 H;
    cbn [print_accounts].
  - exact H.
  - destruct (alike_values idx H) as (Ht & Hu & Hp).
    destruct H as [Hl He].
    destruct w1 as [f1 e1 i1 l1 c1 s1], w2 as [f2 e2 i2 l2 c2 s2].
    cbn [environ log] in *. subst l2. unfold value_or in Ht, Hu, Hp.
    run_store. rewrite (Ht k), (Hu (lit "N/A")), Hp.
    apply IH. split; [reflexivity | exact He].
Qed.

(** X23: [list_all_accounts] shows no password: two runs on one file, after
    the same events, in environments that differ in the values of password
    keys only (set and empty in the one where they are in the other) print
    the same. *)
Theorem listing_shows_no_password
    (load_dotenv : str -> bool -> dict -> dict) (w1 w2 : world) :
  env_file w1 = env_file w2 ->
  alike w1 w2 ->
  log (snd (list_all_accounts load_dotenv w1)) =
  log (snd (list_all_accounts load_dotenv w2)).
Proof.
  intros Hfile [Hlog Henv].
  destruct w1 as [f1 e1 i1 l1 c1 s1], w2 as [f2 e2 i2 l2 c2 s2].
  cbn [env_file log environ] in *. subst f2 l2.
  unfold list_all_accounts.
  unfold bind at 1. unfold print at 1. unfold bind at 1.
  unfold read_account_mapping at 1. cbn [record env_file].
  symmetry.
  unfold bind at 1. unfold print at 1. unfold bind at 1.
  unfold read_account_mapping at 1. cbn [record env_file].
  symmetry.
  destruct (sorted_by_index (fst (get_account_mapping f1))) as [|x xs].
  - cbn [is_empty_list]. run_store. reflexivity.
  - cbn [is_empty_list]. unfold bind.
    match goal with
    | |- context [print_accounts ?items ?a] =>
        match goal with
        | |- log (snd _) = log (snd ?rhs) =>
            match rhs with
            | context [print_accounts items ?b] =>
                assert (Hrun : alike (snd (print_accounts items a))
                                     (snd (print_accounts items b)))
                  by (apply print_accounts_alike; split;
                      [reflexivity | exact Henv]);
                destruct (print_accounts_ok items a) as [ev1 E1];
                destruct (print_accounts_ok items b) as [ev2 E2];
                rewrite E1, E2 in *
            end
        end
    end.
    destruct Hrun as [Hrun _]. cbn in Hrun |- *. exact Hrun.
Qed.

Lemma listing_shows_no_password_witness :
  log (snd (list_all_accounts (fun _ _ e => e) acme_world)) =
  log (snd (list_all_accounts (fun _ _ e => e) acme_world_other_password)).
Proof.
  apply (@listing_shows_no_password (fun _ _ e => e) acme_world
           acme_world_other_password).
  - reflexivity.
  - split; [reflexivity|]. intros key.
    unfold value_or. cbn [environ acme_world acme_world_other_password
                          set_environ dict_get].
    destruct (Str.eqb key (lit "Trade_Name_1")); [split; reflexivity|].
    destruct (Str.eqb key (lit "GST_UserID_1")); [split; reflexivity|].
    destruct (Str.eqb key (lit "GST_PSSWD_1")) eqn:E;
      [|split; reflexivity].
    apply str_eqb_eq in E. subst key.
    split; [intros H; vm_compute in H; discriminate H | reflexivity].
Defined.

(** ** The menus *)


Lemma main_loop_exit (load_dotenv : str -> bool -> dict -> dict)
    (exit_line : str) (rest : list str) (bad : list str) :
  strip exit_line = lit "3" ->
  Forall (no_choice_of main_choices) bad ->
  forall fuel file env lg cd sess,
    length bad < fuel ->
    exists events,
      main_loop load_dotenv fuel
        {| env_file := file; environ := env;
           stdin := bad ++ exit_line :: rest; log := lg;
           chromedriver_exists := cd; session := sess |} =
      (Ok tt,
       {| env_file := file; environ := env; stdin := rest;
          log := events ++ lg;
          chromedriver_exists := cd; session := sess |}).
Proof.
  intros Hexit. induction 1 as [|b bad Hb _ IH];
    intros fuel file env lg cd sess Hfuel;
    (destruct fuel as [|fuel]; [cbn in Hfuel; lia|]);
    cbn [main_loop app]; run_store.
  - rewrite Hexit.
    change (Str.eqb (lit "3") (lit "1")) with false.
    change (Str.eqb (lit "3") (lit "2")) with false.
    change (Str.eqb (lit "3") (lit "3")) with true.
    cbv iota. eexists (_ :: _ :: _ :: _ :: _ :: _ :: nil). reflexivity.
  - unfold no_choice_of, main_choices in Hb. cbn [In] in Hb.
    assert (H1 : Str.eqb (strip b) (lit "1") = false)
      by (apply str_eqb_neq; intros E; apply Hb; auto).
    assert (H2 : Str.eqb (strip b) (lit "2") = false)
      by (apply str_eqb_neq; intros E; apply Hb; auto).
    assert (H3 : Str.eqb (strip b) (lit "3") = false)
      by (apply str_eqb_neq; intros E; apply Hb; auto).
    rewrite H1, H2, H3. cbv iota.
    edestruct (IH fuel file env) as [events ->]; [cbn in Hfuel; lia|].
    eexists (events ++ _ :: _ :: _ :: _ :: _ :: _ :: nil).
    rewrite <- app_assoc. reflexivity.
Qed.

(** X25: lines that are no choice of the main menu are answered with the
    menu again, and the choice 3 after them ends the program: it returns
    with the file and the environment as they were and the lines after the
    choice unread. *)
Theorem main_exit_after_invalid_choices
    (load_dotenv : str -> bool -> dict -> dict) (w : world)
    (bad : list str) (exit_line : str) (rest : list str) :
  stdin w = bad ++ exit_line :: rest ->
  Forall (no_choice_of main_choices) bad ->
  strip exit_line = lit "3" ->
  fst (main load_dotenv w) = Ok tt /\
  env_file (snd (main load_dotenv w)) = env_file w /\
  environ (snd (main load_dotenv w)) = environ w /\
  stdin (snd (main load_dotenv w)) = rest.
Proof.
  destruct w as [file env inp lg cd sess]. cbn [stdin env_file environ].
  intros -> Hbad Hexit. unfold main, with_fuel. run_store.
  edestruct (@main_loop_exit load_dotenv exit_line rest bad Hexit Hbad)
    as [events ->].
  - rewrite length_app. cbn. lia.
  - repeat split; reflexivity.
Qed.

Lemma main_exit_after_invalid_choices_witness :
  fst (main (fun _ _ e => e)
         (store_world store_1_3 [lit "x"; lit ""; lit " 3 "; lit "1"])) =
    Ok tt /\
  env_file (snd (main (fun _ _ e => e)
                   (store_world store_1_3
                      [lit "x"; lit ""; lit " 3 "; lit "1"]))) =
  env_file (store_world store_1_3 [lit "x"; lit ""; lit " 3 "; lit "1"]) /\
  environ (snd (main (fun _ _ e => e)
                  (store_world store_1_3
                     [lit "x"; lit ""; lit " 3 "; lit "1"]))) =
  environ (store_world store_1_3 [lit "x"; lit ""; lit " 3 "; lit "1"]) /\
  stdin (snd (main (fun _ _ e => e)
                (store_world store_1_3
                   [lit "x"; lit ""; lit " 3 "; lit "1"]))) = [lit "1"].
Proof.
  apply (@main_exit_after_invalid_choices (fun _ _ e => e)
           (store_world store_1_3 [lit "x"; lit ""; lit " 3 "; lit "1"])
           [lit "x"; lit ""] (lit " 3 ") [lit "1"]).
  - reflexivity.
  - repeat constructor; intros H; vm_compute in H;
      repeat (destruct H as [H | H]; [discriminate H|]); exact H.
  - vm_compute. reflexivity.
Defined.

Lemma manage_loop_back (load_dotenv : str -> bool -> dict -> dict)
    (back_line : str) (rest : list str) (bad : list str) :
  strip back_line = lit "4" ->
  Forall (no_choice_of credential_choices) bad ->
  forall fuel file env lg cd sess,
    length bad < fuel ->
    exists events,
      manage_credentials_loop load_dotenv fuel
        {| env_file := file; environ := env;
           stdin := bad ++ back_line :: rest; log := lg;
           chromedriver_exists := cd; session := sess |} =
      (Ok tt,
       {| env_file := file; environ := env; stdin := rest;
          log := events ++ lg;
          chromedriver_exists := cd; session := sess |}).
Proof.
  intros Hback. induction 1 as [|b bad Hb _ IH];
    intros fuel file env lg cd sess Hfuel;
    (destruct fuel as [|fuel]; [cbn in Hfuel; lia|]);
    cbn [manage_credentials_loop app]; run_store.
  - rewrite Hback.
    change (Str.eqb (lit "4") (lit "1")) with false.
    change (Str.eqb (lit "4") (lit "2")) with false.
    change (Str.eqb (lit "4") (lit "3")) with false.
    change (Str.eqb (lit "4") (lit "4")) with true.
    cbv iota. eexists (_ :: _ :: _ :: _ :: _ :: _ :: nil). reflexivity.
  - unfold no_choice_of, credential_choices in Hb. cbn [In] in Hb.
    assert (H1 : Str.eqb (strip b) (lit "1") = false)
      by (apply str_eqb_neq; intros E; apply Hb; auto).
    assert (H2 : Str.eqb (strip b) (lit "2") = false)
      by (apply str_eqb_neq; intros E; apply Hb; auto).
    assert (H3 : Str.eqb (strip b) (lit "3") = false)
      by (apply str_eqb_neq; intros E; apply Hb; auto).
    assert (H4 : Str.eqb (strip b) (lit "4") = false)
      by (apply str_eqb_neq; intros E; apply Hb; auto 6).
    rewrite H1, H2, H3, H4. cbv iota.
    edestruct (IH fuel file env) as [events ->]; [cbn in Hfuel; lia|].
    eexists (events ++ _ :: _ :: _ :: _ :: _ :: _ :: _ :: nil).
    rewrite <- app_assoc. reflexivity.
Qed.

(** X26: in the menu of the credentials, lines that are no choice are
    answered with the menu again, and the choice 4 after them leads back:
    the menu returns with the file and the environment as they were and the
    lines after the choice unread. *)
Theorem credentials_menu_back_after_invalid_choices
    (load_dotenv : str -> bool -> dict -> dict) (w : world)
    (bad : list str) (back_line : str) (rest : list str) :
  stdin w = bad ++ back_line :: rest ->
  Forall (no_choice_of credential_choices) bad ->
  strip back_line = lit "4" ->
  fst (manage_credentials_menu load_dotenv w) = Ok tt /\
  env_file (snd (manage_credentials_menu load_dotenv w)) = env_file w /\
  environ (snd (manage_credentials_menu load_dotenv w)) = environ w /\
  stdin (snd (manage_credentials_menu load_dotenv w)) = rest.
Proof.
  destruct w as [file env inp lg cd sess]. cbn [stdin env_file environ].
  intros -> Hbad Hback. unfold manage_credentials_menu, with_fuel.
  cbn [stdin].
  edestruct (@manage_loop_back load_dotenv back_line rest bad Hback Hbad)
    as [events ->].
  - rewrite length_app. cbn. lia.
  - repeat split; reflexivity.
Qed.

Lemma credentials_menu_back_after_invalid_choices_witness :
  fst (manage_credentials_menu (fun _ _ e => e)
         (store_world store_1_3 [lit "5"; lit "4"; lit "2"])) = Ok tt /\
  env_file (snd (manage_credentials_menu (fun _ _ e => e)
                   (store_world store_1_3 [lit "5"; lit "4"; lit "2"]))) =
  env_file (store_world store_1_3 [lit "5"; lit "4"; lit "2"]) /\
  environ (snd (manage_credentials_menu (fun _ _ e => e)
                  (store_world store_1_3 [lit "5"; lit "4"; lit "2"]))) =
  environ (store_world store_1_3 [lit "5"; lit "4"; lit "2"]) /\
  stdin (snd (manage_credentials_menu (fun _ _ e => e)
                (store_world store_1_3 [lit "5"; lit "4"; lit "2"]))) =
  [lit "2"].
Proof.
  apply (@credentials_menu_back_after_invalid_choices (fun _ _ e => e)
           (store_world store_1_3 [lit "5"; lit "4"; lit "2"])
           [lit "5"] (lit "4") [lit "2"]).
  - reflexivity.
  - repeat constructor; intros H; vm_compute in H;
      repeat (destruct H as [H | H]; [discriminate H|]); exact H.
  - vm_compute. reflexivity.
Defined.

(** ** [perform_gst_login] *)

Lemma frozen_ret {A} (a : A) : frozen (ret a).
Proof. intros w. split; reflexivity. Qed.

Lemma frozen_out_of_fuel {A} : frozen (@out_of_fuel A).
Proof. intros w. split; reflexivity. Qed.

Lemma frozen_print (template : string) (args : list str) :
  frozen (print template args).
Proof. intros w. split; reflexivity. Qed.

Lemma frozen_sleep (seconds : nat) : frozen (sleep seconds).
Proof. intros w. split; reflexivity. Qed.

Lemma frozen_get_world : frozen get_world.
Proof. intros w. split; reflexivity. Qed.

Lemma frozen_getenv (key : str) : frozen (getenv key).
Proof. intros w. split; reflexivity. Qed.

Lemma frozen_getenv_or (key default : str) : frozen (getenv_or key default).
Proof. intros w. split; reflexivity. Qed.

Lemma frozen_read_account_mapping : frozen read_account_mapping.
Proof. intros w. split; reflexivity. Qed.

Lemma frozen_input (template : string) (args : list str) :
  frozen (input template args).
Proof. intros w. unfold input. destruct (stdin w); split; reflexivity. Qed.

Lemma frozen_call (op : driver_op) : frozen (call op).
Proof. intros w. rewrite call_unfold. split; reflexivity. Qed.

Lemma frozen_bind {A B} (m : M A) (k : A -> M B) :
  frozen m -> (forall a, frozen (k a)) -> frozen (bind m k).
Proof.
  intros Hm Hk w. unfold bind. destruct (Hm w) as [H1 H2].
  destruct (m w) as [[a | e |] w1]; cbn [fst snd] in *.
  - destruct (Hk a w1) as [K1 K2]. split; congruence.
  - split; assumption.
  - split; assumption.
Qed.

Lemma frozen_try_except {A} (body : M A) (handler : exn -> M A) :
  frozen body -> (forall e, frozen (handler e)) ->
  frozen (try_except body handler).
Proof.
  intros Hb Hh w. unfold try_except. destruct (Hb w) as [H1 H2].
  destruct (body w) as [[a | e |] w1]; cbn [fst snd] in *.
  - split; assumption.
  - destruct (Hh e w1) as [K1 K2]. split; congruence.
  - split; assumption.
Qed.

Lemma frozen_try_finally {A} (body : M A) (fin : M unit) :
  frozen body -> frozen fin -> frozen (try_finally body fin).
Proof.
  intros Hb Hf w. unfold try_finally. destruct (Hb w) as [H1 H2].
  destruct (body w) as [[a | e |] w1]; cbn [fst snd] in *;
    try (split; assumption);
    destruct (Hf w1) as [K1 K2];
    destruct (fin w1) as [[[] | e' |] w2]; cbn [fst snd] in *;
    split; congruence.
Qed.

Lemma frozen_with_fuel {A} (loop : nat -> M A) :
  (forall fuel, frozen (loop fuel)) -> frozen (with_fuel loop).
Proof. intros H w. unfold with_fuel. apply H. Qed.

Ltac frozen_step :=
  match goal with
  | |- frozen (bind _ _) => apply frozen_bind; [|intro]
  | |- frozen (try_except _ _) => apply frozen_try_except; [|intro]
  | |- frozen (try_finally _ _) => apply frozen_try_finally
  | |- frozen (ret _) => apply frozen_ret
  | |- frozen out_of_fuel => apply frozen_out_of_fuel
  | |- frozen (print _ _) => apply frozen_print
  | |- frozen (input _ _) => apply frozen_input
  | |- frozen (sleep _) => apply frozen_sleep
  | |- frozen (call _) => apply frozen_call
  | |- frozen get_world => apply frozen_get_world
  | |- frozen (getenv _) => apply frozen_getenv
  | |- frozen (getenv_or _ _) => apply frozen_getenv_or
  | |- frozen read_account_mapping => apply frozen_read_account_mapping
  | |- frozen (if ?b then _ else _) => destruct b
  | |- frozen (match ?x with _ => _ end) => destruct x
  end.

Lemma frozen_print_each (template : string) (items : list str) :
  frozen (print_each template items).
Proof.
  induction items as [|x items IH]; cbn [print_each];
    repeat frozen_step. exact IH.
Qed.

Lemma frozen_names_for_display (items : list (str * str)) :
  frozen (names_for_display items).
Proof.
  induction items as [|[k v] items IH]; cbn [names_for_display];
    repeat frozen_step. exact IH.
Qed.

Lemma frozen_login_attempt (username password name : str) :
  frozen (login_attempt username password name).
Proof.
  unfold login_attempt, guarded_login, fill_and_submit, evaluate, logged_in,
    url_has, report_page_error, close_session.
  repeat frozen_step.
Qed.

Lemma frozen_login_loop (fuel : nat) (mapping : dict) (names : list str) :
  frozen (login_loop fuel mapping names).
Proof.
  induction fuel as [|fuel IH]; cbn [login_loop];
    repeat first [ exact IH
                 | apply frozen_print_each
                 | apply frozen_login_attempt
                 | frozen_step ].
Qed.

(** X27: a login, however it goes and whatever the browser does, writes
    nothing: [perform_gst_login] leaves the credential file and the
    environment as they are. *)
Theorem login_changes_no_credentials (w : world) :
  env_file (snd (perform_gst_login w)) = env_file w /\
  environ (snd (perform_gst_login w)) = environ w.
Proof.
  assert (H : frozen perform_gst_login).
  { unfold perform_gst_login.
    repeat first [ apply frozen_names_for_display
                 | apply frozen_print_each
                 | apply frozen_with_fuel; intros fuel;
                   apply frozen_login_loop
                 | frozen_step ]. }
  apply H.
Qed.

Lemma calm_ret (file0 : str) (env0 : dict) {A} (a : A) :
  calm file0 env0 (ret a).
Proof. intros w Hf He. repeat split; assumption. Qed.

Lemma calm_out_of_fuel (file0 : str) (env0 : dict) {A} :
  calm file0 env0 (@out_of_fuel A).
Proof. intros w Hf He. repeat split; assumption. Qed.

Lemma calm_print (file0 : str) (env0 : dict) (template : string)
    (args : list str) :
  calm file0 env0 (print template args).
Proof. intros w Hf He. repeat split; assumption. Qed.

Lemma calm_getenv_or (file0 : str) (env0 : dict) (key default : str) :
  calm file0 env0 (getenv_or key default).
Proof. intros w Hf He. repeat split; assumption. Qed.

Lemma calm_input (file0 : str) (env0 : dict) (template : string)
    (args : list str) :
  calm file0 env0 (input template args).
Proof.
  intros w Hf He. unfold input. destruct (stdin w); repeat split; assumption.
Qed.

Lemma calm_bind (file0 : str) (env0 : dict) {A B} (m : M A) (k : A -> M B) :
  calm file0 env0 m -> (forall a, calm file0 env0 (k a)) ->
  calm file0 env0 (bind m k).
Proof.
  intros Hm Hk w Hf He. unfold bind. destruct (Hm w Hf He) as (H1 & H2 & H3).
  destruct (m w) as [[a | e |] w1]; cbn [fst snd] in *.
  - destruct (Hk a w1 H2 H3) as (K1 & K2 & K3).
    repeat split; [congruence | assumption | assumption].
  - repeat split; assumption.
  - repeat split; assumption.
Qed.

(** What is read from the environment is what [env0] holds. *)
Lemma calm_bind_getenv (file0 : str) (env0 : dict) {B} (key : str)
    (k : option str -> M B) :
  calm file0 env0 (k (dict_get key env0)) ->
  calm file0 env0 (bind (getenv key) k).
Proof.
  intros Hk w Hf He. unfold bind, getenv. rewrite He. now apply Hk.
Qed.

(** The mapping that is read is the mapping of [file0]. *)
Lemma calm_bind_read (file0 : str) (env0 : dict) {B}
    (k : dict * nat -> M B) :
  calm file0 env0 (k (get_account_mapping file0)) ->
  calm file0 env0 (bind read_account_mapping k).
Proof.
  intros Hk w Hf He. unfold bind, read_account_mapping. rewrite Hf.
  now apply Hk.
Qed.

Lemma calm_with_fuel (file0 : str) (env0 : dict) {A} (loop : nat -> M A) :
  (forall fuel, calm file0 env0 (loop fuel)) ->
  calm file0 env0 (with_fuel loop).
Proof. intros H w. unfold with_fuel. apply H. Qed.

Lemma calm_print_each (file0 : str) (env0 : dict) (template : string)
    (items : list str) :
  calm file0 env0 (print_each template items).
Proof.
  induction items as [|x items IH]; cbn [print_each].
  - apply calm_ret.
  - apply calm_bind; [apply calm_print | intros _; exact IH].
Qed.

Lemma calm_names_for_display (file0 : str) (env0 : dict)
    (items : list (str * str)) :
  calm file0 env0 (names_for_display items).
Proof.
  induction items as [|[k v] items IH]; cbn [names_for_display].
  - apply calm_ret.
  - apply calm_bind; [apply calm_getenv_or | intros name].
    apply calm_bind; [exact IH | intros others]. apply calm_ret.
Qed.

(** Without an account that has both a username and a password, the loop of
    the login starts no attempt. *)
Lemma calm_login_loop (file0 : str) (env0 mapping : dict) (names : list str)
    (fuel : nat) :
  no_usable_account mapping env0 ->
  calm file0 env0 (login_loop fuel mapping names).
Proof.
  intros Hnone. induction fuel as [|fuel IH]; cbn [login_loop];
    [apply calm_out_of_fuel|].
  cbv zeta. apply calm_bind; [apply calm_input | intros line].
  destruct (Str.eqb (lower (strip line)) (lit "back"));
    [apply calm_print|].
  destruct (Str.eqb (lower (strip line)) (lit "list")).
  - apply calm_bind; [apply calm_print | intros _].
    apply calm_bind;
      [destruct (is_empty_list names); [apply calm_print | apply calm_ret]
      | intros _].
    apply calm_bind; [apply calm_print_each | intros _; exact IH].
  - destruct (dict_get (normalize (strip line)) mapping) as [index|] eqn:E.
    + apply calm_bind_getenv. apply calm_bind_getenv.
      apply calm_bind; [apply calm_getenv_or | intros name].
      apply dict_get_In in E. destruct E as [k E].
      rewrite (Hnone k index E).
      apply calm_bind; [apply calm_print | intros _].
      apply calm_bind; [apply calm_print | intros _; exact IH].
    + apply calm_bind; [apply calm_print | intros _; exact IH].
Qed.

(** X28: [perform_gst_login] makes no call on the browser, so that none is
    started, when the chromedriver is missing, and when no account of the
    store has both a username and a password in the environment, whatever
    the operator types. *)
Theorem no_browser_without_driver_or_credentials (w : world) :
  chromedriver_exists w = false \/
  no_usable_account (fst (get_account_mapping (env_file w))) (environ w) ->
  calls (log (snd (perform_gst_login w))) = calls (log w).
Proof.
  destruct w as [file env inp lg cd sess].
  cbn [chromedriver_exists env_file environ log]. intros H.
  unfold perform_gst_login.
  unfold bind at 1. unfold print at 1. unfold bind at 1.
  unfold get_world at 1. cbn [record chromedriver_exists].
  destruct cd; cbn [negb].
  - destruct H as [H | H]; [discriminate H|].
    match goal with
    | |- calls (log (snd (?m ?w0))) = _ =>
        assert (Hcalm : calm file env m)
    end.
    { apply calm_bind_read. cbv zeta.
      apply calm_bind; [apply calm_names_for_display | intros names].
      destruct (is_empty_list names).
      - apply calm_bind; [apply calm_print | intros _].
        apply calm_bind; [apply calm_input | intros _]. apply calm_ret.
      - apply calm_bind; [apply calm_print | intros _].
        apply calm_bind; [apply calm_print_each | intros _].
        apply calm_with_fuel. intros fuel. now apply calm_login_loop. }
    now apply Hcalm.
  - run_store. destruct inp; reflexivity.
Qed.

Lemma no_browser_without_driver_or_credentials_witness :
  calls (log (snd (perform_gst_login acme_world_without_password))) =
  calls (log acme_world_without_password).
Proof.
  apply (no_browser_without_driver_or_credentials
           acme_world_without_password).
  right. intros k index Hin. vm_compute in Hin.
  destruct Hin as [Hin | []]. injection Hin as <- <-.
  vm_compute. reflexivity.
Defined.

(** ** The statement [try] of the login *)

(** X29: once the login page is loaded, the session is closed exactly once,
    however the attempt ends: with a success, with a failure, or with an
    exception of any of its steps. *)
Theorem session_closed_once_after_page_load
    (username password name : str) (w : world) :
  quit_count (log (snd (guarded_login username password name (Some tt) w))) =
  S (quit_count (log w)).
Proof. apply guarded_login_quits_once. Qed.

(** X30: once the login page is loaded, when closing the session does not
    raise, no exception leaves the attempt: what a step of it raises is
    reported with the name of the account, the session is closed, and the
    loop of the login goes on; without an exception the attempt ends as its
    evaluation says. *)
Theorem login_faults_are_reported
    (username password name : str) (w : world) :
  (forall h, fault (session w) h Quit = None) ->
  match (fill_and_submit username password name ;; evaluate name) w with
  | (Ok ctl, w1) =>
      guarded_login username password name (Some tt) w =
      (Ok ctl, record (Call Quit) w1)
  | (Raise e, w1) =>
      guarded_login username password name (Some tt) w =
      (Ok Continue, record (Call Quit) (record (fault_report name e) w1))
  | (OutOfFuel, _) => False
  end.
Proof. apply guarded_login_catches. Qed.

Lemma login_faults_are_reported_witness :
  match (fill_and_submit (lit "u1") (lit "p1") (lit "Acme Co") ;;
         evaluate (lit "Acme Co")) stalled_world with
  | (Ok ctl, w1) =>
      guarded_login (lit "u1") (lit "p1") (lit "Acme Co") (Some tt)
                    stalled_world =
      (Ok ctl, record (Call Quit) w1)
  | (Raise e, w1) =>
      guarded_login (lit "u1") (lit "p1") (lit "Acme Co") (Some tt)
                    stalled_world =
      (Ok Continue,
       record (Call Quit) (record (fault_report (lit "Acme Co") e) w1))
  | (OutOfFuel, _) => False
  end.
Proof.
  apply (@login_faults_are_reported (lit "u1") (lit "p1") (lit "Acme Co")
           stalled_world).
  intros h. reflexivity.
Defined.
